(** * SIFT logo matcher stream: a shallow embedding of [main.py]

    The development follows the layout of the source file:
    - [Matcher]: the k-nearest-neighbour matcher the loop calls and the
      ratio-test filter of lines 135-139;
    - the module-level state, [processing_loop], [mjpeg_generator] and the
      [reload_logos] handler, over the class [OpenCV] of the operations the
      program treats as black boxes;
    - the program as a whole: the operations on the shared state, and the
      handler's assignments scheduled against the loop's reads;
    - [Toy]: a small concrete instance of those black boxes on which the
      definitions are run;
    - the properties, in the same order.

    Python floats are IEEE binary64 numbers and are modelled by Rocq's
    primitive floats, so that [<] and [*] on distances and time stamps are
    the operations the interpreter performs. *)

From Stdlib Require Import ZArith List Bool Floats Lia.
From stdpp Require Import base gmap strings list pretty.
Import ListNotations.

Local Open Scope nat_scope.

(* Decimal literals such as 0.67 denote the nearest binary64 value, as in
   Python. *)
Set Warnings "-inexact-float".

(** ** Results of calls that may raise *)

(** An OpenCV call either returns or raises [cv2.error]. *)
Inductive exn : Type :=
| cv2_error (msg : string).

Inductive result (A : Type) : Type :=
| Ok (a : A)
| Raise (e : exn).
Arguments Ok {A} a.
Arguments Raise {A} e.

Definition bind {A B} (r : result A) (k : A -> result B) : result B :=
  match r with
  | Ok a => k a
  | Raise e => Raise e
  end.

Notation "'call' x ':=' r 'in' k" := (bind r (fun x => k))
  (at level 10, x pattern, r at level 100, k at level 200).

(** ** The matcher *)

Module Matcher.

(** A descriptor is one row of the [n x 128] array SIFT returns; a
    descriptor set is the list of rows.  [None] stands for Python's [None],
    which is what [detectAndCompute] returns when it finds no keypoint. *)
Definition descriptor : Type := list float.
Definition Descs : Type := list descriptor.

(** [cv2.DMatch] *)
Record DMatch : Type := mkDMatch {
  queryIdx : nat;
  trainIdx : nat;
  distance : float
}.

(** [RATIO_THRESH = 0.67] *)
Definition RATIO_THRESH : float := 0.67%float.

(** [FLT_MAX], the largest finite float32: the distance every slot of a
    result set starts with in OpenCV's k-nearest search. *)
Definition FLT_MAX : float := 0x1.fffffep127%float.

(** Insertion of a candidate into a list kept in ascending order of
    distance; among equal distances the earlier train index stays first. *)
Fixpoint insert_match (d : DMatch) (l : list DMatch) : list DMatch :=
  match l with
  | [] => [d]
  | x :: r =>
      if (distance d <=? distance x)%float then d :: x :: r
      else x :: insert_match d r
  end.

Definition sort_matches (l : list DMatch) : list DMatch :=
  fold_right insert_match [] l.

(** Line 136 (and 139): the condition of the comprehension
    [len(m) == 2 and m[0].distance < RATIO_THRESH * m[1].distance]. *)
Definition ratio_test (m : list DMatch) : bool :=
  (length m =? 2) &&
  match m with
  | m0 :: m1 :: _ => (distance m0 <? RATIO_THRESH * distance m1)%float
  | _ => false
  end.

(** [m[0]] of a result set the condition accepted. *)
Definition first_of (m : list DMatch) : list DMatch :=
  match m with
  | m0 :: _ => [m0]
  | [] => []
  end.

(** [[m[0] for m in matches if ...]] *)
Definition good_matches (matches : list (list DMatch)) : list DMatch :=
  flat_map first_of (List.filter ratio_test matches).

(** The number of rows of a descriptor array, 0 for [None]. *)
Definition rows (d : option Descs) : nat :=
  match d with
  | Some l => length l
  | None => 0
  end.

End Matcher.

Import Matcher.

(** ** The OpenCV operations the program calls

    Images and keypoint tuples are opaque to [main.py]: it only passes them
    between OpenCV calls.  [imread] returns [None] on a missing or
    undecodable file; [imdecode] returns [None] on undecodable bytes and
    raises on an empty buffer; [detectAndCompute] and [drawMatches] may
    raise.  [normL2] is the distance [cv2.BFMatcher()] (default norm
    [NORM_L2]) computes for two rows: OpenCV computes it in float32, in an
    order of summation of its own, and [DMatch.distance] hands it to Python
    as a float. *)
Class OpenCV : Type := {
  Image : Type;
  KeyPoints : Type;
  (* cv2.resize(img, (w, h)) *)
  resize : Image -> nat * nat -> Image;
  (* sift.detectAndCompute(img, None) *)
  detectAndCompute : Image -> result (KeyPoints * option Descs);
  (* cv2.drawMatches(img1, kp1, img2, kp2, matches, None, flags=...) *)
  drawMatches : Image -> KeyPoints -> Image -> KeyPoints -> list DMatch -> result Image;
  (* np.hstack([a, b]) *)
  hstack : Image -> Image -> Image;
  (* cv2.putText(img, text, org, FONT_HERSHEY_SIMPLEX, 0.6, (0, 255, 0), 2) *)
  putText : Image -> string -> nat * nat -> Image;
  (* cv2.imencode(".jpg", img, [IMWRITE_JPEG_QUALITY, q]), buffer.tobytes() *)
  imencode : Image -> Z -> bool * list Byte.byte;
  (* cv2.imdecode(np.frombuffer(data, np.uint8), cv2.IMREAD_COLOR) *)
  imdecode : list Byte.byte -> result (option Image);
  (* cv2.imread(path) *)
  imread : string -> option Image;
  (* the distance of a query row and a train row in cv2.BFMatcher() *)
  normL2 : descriptor -> descriptor -> float
}.

(** ** The brute-force matcher *)

Section KnnMatch.
Context `{cv : OpenCV}.

(** The candidates of query row [q] (index [qi]) among the train rows: a
    train row enters a result set only with a distance below the [FLT_MAX]
    the slots start with, so a distance that overflowed is left out. *)
Fixpoint candidates_from (qi : nat) (q : descriptor) (ti : nat) (train : Descs)
  : list DMatch :=
  match train with
  | [] => []
  | t :: r =>
      let d := normL2 q t in
      if (d <? FLT_MAX)%float
      then mkDMatch qi ti d :: candidates_from qi q (S ti) r
      else candidates_from qi q (S ti) r
  end.

Definition knn_row (k : nat) (train : Descs) (qi : nat) (q : descriptor)
  : list DMatch :=
  firstn k (sort_matches (candidates_from qi q 0 train)).

Fixpoint knn_rows (k : nat) (train : Descs) (qi : nat) (query : Descs)
  : list (list DMatch) :=
  match query with
  | [] => []
  | q :: r => knn_row k train qi q :: knn_rows k train (S qi) r
  end.

Definition same_width (w : nat) (rows : Descs) : bool :=
  forallb (fun r => length r =? w) rows.

(** [matcher.knnMatch(query, train, k)]: one result set per query row, each
    holding the nearest train rows, [k] at most, in ascending order of
    distance (fewer when the train set is smaller or distances overflow).
    A [None] or empty operand gives no result set at all; rows of different
    widths make OpenCV raise. *)
Definition knnMatch (query : option Descs) (train : Descs) (k : nat)
  : result (list (list DMatch)) :=
  match query with
  | None => Ok []
  | Some [] => Ok []
  | Some ((q0 :: _) as qs) =>
      match train with
      | [] => Ok []
      | _ :: _ =>
          if same_width (length q0) qs && same_width (length q0) train
          then Ok (knn_rows k train 0 qs)
          else Raise (cv2_error "batchDistance: descriptor sizes differ")
      end
  end.

End KnnMatch.

(** ** Configuration *)

Definition FRAME_SIZE : nat * nat := (320, 240).
Definition JPEG_QUALITY : Z := 90.

(** ** Module-level state *)

(** A value of the [shared_stats] dictionary. *)
Inductive pyval : Type :=
| PyFloat (f : float)
| PyInt (z : Z).

(** The initial [shared_stats]. *)
Definition initial_stats : gmap string pyval :=
  <["fps" := PyFloat 0%float]>
  (<["logo1_matches" := PyInt 0]>
  (<["logo2_matches" := PyInt 0]>
  (<["last_update" := PyFloat 0%float]>
  (<["mem_mb" := PyFloat 0%float]> ∅)))).

Section State.
Context `{cv : OpenCV}.

(** The six globals [load_logos] fills before the loop thread starts. *)
Record Registry : Type := mkRegistry {
  logo1_img : Image;
  kp1 : KeyPoints;
  desc1 : option Descs;
  logo2_img : Image;
  kp2 : KeyPoints;
  desc2 : option Descs
}.

Record Shared : Type := mkShared {
  registry : Registry;
  shared_stats : gmap string pyval;
  last_frame : option Image
}.

(** The locals of [processing_loop]. *)
Record Locals : Type := mkLocals {
  fps_counter : Z;
  last_fps_time : float
}.

(** The global [cap] as an iteration finds it: still [None], a capture
    that is not open, or an open one. *)
Inductive CapState : Type :=
| CapNone
| CapClosed
| CapOpen.

(** What one iteration of the loop reads from outside the loop. *)
Record CycleEnv : Type := mkCycleEnv {
  cap : CapState;                   (* cap, and cap.isOpened() *)
  cap_read : bool * option Image;   (* ret, frame = cap.read() *)
  clock_publish : float;            (* time.time() on line 163 *)
  mem_stat : float;                 (* update_mem_stat() *)
  clock_now : float                 (* time.time() on line 172 *)
}.

(** [cap is not None and cap.isOpened()], the negation of the test of
    line 120. *)
Definition cap_opened (env : CycleEnv) : bool :=
  match cap env with
  | CapOpen => true
  | _ => false
  end.

Inductive Event : Type :=
| Sleep (secs : float)
| Release.

End State.

Arguments Registry {cv}.
Arguments Shared {cv}.
Arguments CycleEnv {cv}.

(** ** The processing loop *)

(** Conversion of a (small, non-negative) Python [int] to [float], as the
    division on line 175 performs it. *)
Definition float_of_Z (z : Z) : float := PrimFloat.of_uint63 (Uint63.of_Z z).

Section Program.
Context `{cv : OpenCV}.

Definition set_stats (st : gmap string pyval) (sh : Shared) : Shared :=
  mkShared (registry sh) st (last_frame sh).

Definition set_last_frame (f : Image) (sh : Shared) : Shared :=
  mkShared (registry sh) (shared_stats sh) (Some f).

Definition set_registry (r : Registry) (sh : Shared) : Shared :=
  mkShared r (shared_stats sh) (last_frame sh).

(** Lines 135-167: the body of [if desc_frame is not None], run on its own
    thread without interference (the handler's writes in between are
    the matter of [Stmt] below). *)
Definition match_and_publish (env : CycleEnv) (frame : Image)
    (kp_frame : KeyPoints) (desc_frame : Descs) (sh : Shared)
  : result Shared :=
  let reg := registry sh in
  (* Logo 1 *)
  call matches1 := knnMatch (desc1 reg) desc_frame 2 in
  let good1 := good_matches matches1 in
  (* Logo 2 *)
  call matches2 := knnMatch (desc2 reg) desc_frame 2 in
  let good2 := good_matches matches2 in
  call img_matches1 := drawMatches (logo1_img reg) (kp1 reg) frame kp_frame good1 in
  call img_matches2 := drawMatches (logo2_img reg) (kp2 reg) frame kp_frame good2 in
  let '(view_w, view_h) := FRAME_SIZE in
  let img_matches1 := resize img_matches1 (view_w, view_h) in
  let img_matches2 := resize img_matches2 (view_w, view_h) in
  let out_frame := hstack img_matches1 img_matches2 in
  let out_frame := putText out_frame ("L1: " +:+ pretty (length good1)) (10, 20) in
  let out_frame := putText out_frame ("L2: " +:+ pretty (length good2)) (view_w + 10, 20) in
  (* with stats_lock *)
  let st := shared_stats sh in
  let st := <["logo1_matches" := PyInt (Z.of_nat (length good1))]> st in
  let st := <["logo2_matches" := PyInt (Z.of_nat (length good2))]> st in
  let st := <["last_update" := PyFloat (clock_publish env)]> st in
  let st := <["mem_mb" := PyFloat (mem_stat env)]> st in
  (* with frame_lock *)
  Ok (set_last_frame out_frame (set_stats st sh)).

(** Lines 170-177: the FPS accounting that ends an iteration. *)
Definition rate_accounting (env : CycleEnv) (sh : Shared) (lc : Locals)
  : Shared * Locals :=
  let fps_counter := (fps_counter lc + 1)%Z in
  let now := clock_now env in
  if (1 <=? now - last_fps_time lc)%float then
    (set_stats (<["fps" := PyFloat (float_of_Z fps_counter / (now - last_fps_time lc))]>
                  (shared_stats sh)) sh,
     mkLocals 0 now)
  else (sh, mkLocals fps_counter (last_fps_time lc)).

(** Lines 120-177: one iteration of the [while] body, the stop test apart.
    An exception of an OpenCV call leaves the iteration at once. *)
Definition cycle (env : CycleEnv) (sh : Shared) (lc : Locals)
  : result (Shared * Locals * list Event) :=
  if negb (cap_opened env) then Ok (sh, lc, [Sleep 0.1%float])
  else
    match cap_read env with
    | (true, Some frame) =>
        let frame := resize frame FRAME_SIZE in
        (* --- SIFT on every frame --- *)
        call kd := detectAndCompute frame in
        let '(kp_frame, desc_frame) := kd in
        call sh' := match desc_frame with
                    | Some d => match_and_publish env frame kp_frame d sh
                    | None => Ok sh   (* nothing overwritten *)
                    end in
        let '(sh'', lc') := rate_accounting env sh' lc in
        Ok (sh'', lc', [])
    | _ => Ok (sh, lc, [Sleep 0.02%float])
    end.

(** Lines 120-127: the iteration gets no frame, the capture being closed or
    the read failing. *)
Definition source_absent (env : CycleEnv) : bool :=
  negb (cap_opened env) ||
  match cap_read env with
  | (true, Some _) => false
  | _ => true
  end.

(** How a run of the loop ended: by the stop signal, by an exception that
    left the [while], or not yet (the recorded environment is exhausted). *)
Inductive Outcome : Type :=
| Stopped
| Crashed (e : exn)
| Running.

Record LoopRun : Type := mkLoopRun {
  run_shared : Shared;
  run_locals : Locals;
  run_events : list Event;
  run_cycles : nat;          (* iterations whose body ran to its end *)
  run_outcome : Outcome
}.

(** The [while not stop_event.is_set()] loop: each iteration comes with the
    value [stop_event.is_set()] has at its top and the environment of its
    body; lines 179-180 follow a regular exit only, and release the capture
    if there is one. *)
Fixpoint loop (envs : list (bool * CycleEnv)) (sh : Shared) (lc : Locals)
  : LoopRun :=
  match envs with
  | [] => mkLoopRun sh lc [] 0 Running
  | (stop, env) :: rest =>
      if stop then
        mkLoopRun sh lc (match cap env with CapNone => [] | _ => [Release] end)
                  0 Stopped
      else
        match cycle env sh lc with
        | Ok (sh', lc', ev) =>
            let r := loop rest sh' lc' in
            mkLoopRun (run_shared r) (run_locals r) (ev ++ run_events r)
                      (S (run_cycles r)) (run_outcome r)
        | Raise e => mkLoopRun sh lc [] 0 (Crashed e)
        end
  end.

(** [processing_loop()]; [t0] is the [time.time()] of line 117. *)
Definition processing_loop (t0 : float) (envs : list (bool * CycleEnv))
    (sh : Shared)
  : LoopRun :=
  loop envs sh (mkLocals 0 t0).

(** The shared states a run goes through, one after each completed
    iteration. *)
Fixpoint loop_states (envs : list (bool * CycleEnv)) (sh : Shared)
    (lc : Locals) : list Shared :=
  match envs with
  | [] => []
  | (stop, env) :: rest =>
      if stop then []
      else
        match cycle env sh lc with
        | Ok (sh', lc', _) => sh' :: loop_states rest sh' lc'
        | Raise _ => []
        end
  end.

(** ** The streaming publisher *)

Inductive GenEvent : Type :=
| GSleep (secs : float)
| GYield (chunk : list Byte.byte).

Definition crlf : list Byte.byte := [Byte.x0d; Byte.x0a].

(** The multipart chunk of lines 196-197, [boundary] being ["frame"]. *)
Definition chunk_of (jpg_bytes : list Byte.byte) : list Byte.byte :=
  String.list_byte_of_string "--" ++ String.list_byte_of_string "frame" ++ crlf
  ++ String.list_byte_of_string "Content-Type: image/jpeg" ++ crlf ++ crlf
  ++ jpg_bytes ++ crlf.

(** Lines 187-188: the read of the shared cell under [frame_lock]. *)
Definition read_frame (sh : Shared) : option Image := last_frame sh.

(** One iteration of the generator's [while] on the shared state it finds. *)
Definition mjpeg_step (sh : Shared) : list GenEvent :=
  match read_frame sh with
  | None => [GSleep 0.02%float]
  | Some frame =>
      let '(ret, buffer) := imencode frame JPEG_QUALITY in
      if ret then [GYield (chunk_of buffer)] else []
  end.

(** [mjpeg_generator()]: each iteration sees the stop flag and the shared
    state of its own moment. *)
Fixpoint mjpeg_generator (polls : list (bool * Shared)) : list GenEvent :=
  match polls with
  | [] => []
  | (stop, sh) :: rest =>
      if stop then [] else mjpeg_step sh ++ mjpeg_generator rest
  end.

(** The iterations a generator makes before it finds the stop flag set. *)
Fixpoint before_stop (polls : list (bool * Shared)) : list Shared :=
  match polls with
  | [] => []
  | (stop, sh) :: rest => if stop then [] else sh :: before_stop rest
  end.

Definition chunks (evs : list GenEvent) : list (list Byte.byte) :=
  flat_map (fun e => match e with GYield c => [c] | GSleep _ => [] end) evs.

Definition pauses (evs : list GenEvent) : list float :=
  flat_map (fun e => match e with GSleep s => [s] | GYield _ => [] end) evs.

(** [get_stats()]: [shared_stats.copy()] under [stats_lock]. *)
Definition get_stats (sh : Shared) : gmap string pyval := shared_stats sh.

(** ** Hot reload of the logos *)

(** The form of a [POST /reload-logos] request; an uploaded file is given
    by the bytes [await file.read()] returns. *)
Record ReloadRequest : Type := mkReloadRequest {
  logo1_file : option (list Byte.byte);
  logo2_file : option (list Byte.byte);
  logo1_path : option string;
  logo2_path : option string
}.

(** The file-system reads of the handler. *)
Inductive IoEvent : Type :=
| ImRead (path : string).

Inductive Response : Type :=
| Status_ok                          (* {"status": "ok"} *)
| HTTPException (status_code : Z) (detail : string)
| Unhandled (e : exn).               (* an exception FastAPI turns into a 500 *)

(** Lines 268-273 (and 275-280): the image of one slot, with the files
    read for it.  [cv2.imdecode] raises on an empty upload; [elif
    logo1_path:] is taken for a path that is neither [None] nor empty. *)
Definition select_input (file : option (list Byte.byte)) (path : option string)
  : result (option Image * list IoEvent) :=
  match file with
  | Some data => call img := imdecode data in Ok (img, [])
  | None =>
      match path with
      | Some p =>
          if String.eqb p "" then Ok (None, []) else Ok (imread p, [ImRead p])
      | None => Ok (None, [])
      end
  end.

(** The files read by a selection that returned. *)
Definition reads_of (sel : result (option Image * list IoEvent)) : list IoEvent :=
  match sel with
  | Ok (_, io) => io
  | Raise _ => []
  end.

(** The four assignments of lines 286-290. *)
Definition set_logo1_img (img : Image) (r : Registry) : Registry :=
  mkRegistry img (kp1 r) (desc1 r) (logo2_img r) (kp2 r) (desc2 r).

Definition set_feat1 (kd : KeyPoints * option Descs) (r : Registry) : Registry :=
  mkRegistry (logo1_img r) (fst kd) (snd kd) (logo2_img r) (kp2 r) (desc2 r).

Definition set_logo2_img (img : Image) (r : Registry) : Registry :=
  mkRegistry (logo1_img r) (kp1 r) (desc1 r) img (kp2 r) (desc2 r).

Definition set_feat2 (kd : KeyPoints * option Descs) (r : Registry) : Registry :=
  mkRegistry (logo1_img r) (kp1 r) (desc1 r) (logo2_img r) (fst kd) (snd kd).

(** Lines 285-287.  The registry comes back with the exception, if any:
    the assignment of line 286 is done when line 287 raises. *)
Definition replace_slot1 (new_logo1 : option Image) (r : Registry)
  : Registry * option exn :=
  match new_logo1 with
  | Some img =>
      let r := set_logo1_img img r in
      match detectAndCompute (logo1_img r) with
      | Ok kd => (set_feat1 kd r, None)
      | Raise e => (r, Some e)
      end
  | None => (r, None)
  end.

(** Lines 288-290. *)
Definition replace_slot2 (new_logo2 : option Image) (r : Registry)
  : Registry * option exn :=
  match new_logo2 with
  | Some img =>
      let r := set_logo2_img img r in
      match detectAndCompute (logo2_img r) with
      | Ok kd => (set_feat2 kd r, None)
      | Raise e => (r, Some e)
      end
  | None => (r, None)
  end.

(** Lines 282-292, once both slots have their image. *)
Definition apply_selected (new_logo1 new_logo2 : option Image)
    (io : list IoEvent) (r : Registry) : Registry * Response * list IoEvent :=
  match new_logo1, new_logo2 with
  | None, None => (r, HTTPException 400 "No se envió ningún logo válido", io)
  | _, _ =>
      match replace_slot1 new_logo1 r with
      | (r1, Some e) => (r1, Unhandled e, io)
      | (r1, None) =>
          match replace_slot2 new_logo2 r1 with
          | (r2, Some e) => (r2, Unhandled e, io)
          | (r2, None) => (r2, Status_ok, io)
          end
      end
  end.

(** [reload_logos]: the registry after the call, the response and the
    files read.  An exception of [cv2.imdecode] leaves the handler at once:
    nothing is read or assigned after it. *)
Definition reload_logos (rq : ReloadRequest) (r : Registry)
  : Registry * Response * list IoEvent :=
  match select_input (logo1_file rq) (logo1_path rq) with
  | Raise e => (r, Unhandled e, [])
  | Ok (new_logo1, io1) =>
      match select_input (logo2_file rq) (logo2_path rq) with
      | Raise e => (r, Unhandled e, io1)
      | Ok (new_logo2, io2) => apply_selected new_logo1 new_logo2 (io1 ++ io2) r
      end
  end.

End Program.

(** ** Start-up and shutdown *)

(** The exceptions that leave [load_logos] and [startup_event]. *)
Inductive py_exn : Type :=
| FileNotFoundError (msg : string)
| RuntimeError (msg : string)
| Cv2Error (e : exn).

(** [LOGO1_PATH], [LOGO2_PATH] *)
Definition LOGO1_PATH : string := "Coca_Cola_Logo.jpg".
Definition LOGO2_PATH : string := "logo2.jpg".

Section Startup.
Context `{cv : OpenCV}.

(** The six logo globals as the module declares them on lines 73-76, each
    [None] until [load_logos] has run. *)
Record Globals : Type := mkGlobals {
  g_logo1_img : option Image;
  g_logo2_img : option Image;
  g_kp1 : option KeyPoints;
  g_desc1 : option Descs;
  g_kp2 : option KeyPoints;
  g_desc2 : option Descs
}.

Definition globals_at_import : Globals :=
  mkGlobals None None None None None None.

(** [load_logos(path1, path2)]: the globals after the call, the exception
    that left it, if any, and the files read. *)
Definition load_logos (path1 path2 : string) (g : Globals)
  : Globals * option py_exn * list IoEvent :=
  let img1 := imread path1 in
  let img2 := imread path2 in
  let io := [ImRead path1; ImRead path2] in
  match img1, img2 with
  | Some i1, Some i2 =>
      (* logo1_img, logo2_img = img1, img2 *)
      let g := mkGlobals (Some i1) (Some i2) (g_kp1 g) (g_desc1 g) (g_kp2 g) (g_desc2 g) in
      match detectAndCompute i1 with
      | Raise e => (g, Some (Cv2Error e), io)
      | Ok kd1 =>
          let g := mkGlobals (g_logo1_img g) (g_logo2_img g)
                             (Some (fst kd1)) (snd kd1) (g_kp2 g) (g_desc2 g) in
          match detectAndCompute i2 with
          | Raise e => (g, Some (Cv2Error e), io)
          | Ok kd2 =>
              (mkGlobals (g_logo1_img g) (g_logo2_img g) (g_kp1 g) (g_desc1 g)
                         (Some (fst kd2)) (snd kd2), None, io)
          end
      end
  | _, _ =>
      (g, Some (FileNotFoundError "No se pudo cargar uno o ambos logos."), io)
  end.

(** The registry the loop and the handler work on, once every global it
    needs is set. *)
Definition registry_of (g : Globals) : option Registry :=
  match g_logo1_img g, g_kp1 g, g_logo2_img g, g_kp2 g with
  | Some i1, Some k1, Some i2, Some k2 =>
      Some (mkRegistry i1 k1 (g_desc1 g) i2 k2 (g_desc2 g))
  | _, _, _, _ => None
  end.

(** The part of the process [startup_event] and [shutdown_event] act on. *)
Record Process : Type := mkProcess {
  p_globals : Globals;
  p_cap : option bool;      (* cap: None, or a capture and its isOpened() *)
  p_stop : bool;            (* stop_event *)
  p_thread : bool           (* the loop thread has been started *)
}.

Definition process_at_import : Process :=
  mkProcess globals_at_import None false false.

(** [startup_event()]; [opened] is what [isOpened()] answers for the
    capture made from [STREAM_URL]. *)
Definition startup_event (opened : bool) (p : Process)
  : Process * option py_exn * list IoEvent :=
  match load_logos LOGO1_PATH LOGO2_PATH (p_globals p) with
  | (g, Some e, io) => (mkProcess g (p_cap p) (p_stop p) (p_thread p), Some e, io)
  | (g, None, io) =>
      (* cap = cv2.VideoCapture(STREAM_URL) *)
      if negb opened then
        (mkProcess g (Some opened) (p_stop p) (p_thread p),
         Some (RuntimeError "No se pudo abrir el stream del celular."), io)
      else
        (* stop_event.clear(); t.start() *)
        (mkProcess g (Some opened) false true, None, io)
  end.

(** [shutdown_event()] *)
Definition shutdown_event (p : Process) : Process :=
  mkProcess (p_globals p) (p_cap p) true (p_thread p).

(** The globals of a process whose logos are loaded. *)
Definition globals_of (r : Registry) : Globals :=
  mkGlobals (Some (logo1_img r)) (Some (logo2_img r))
            (Some (kp1 r)) (desc1 r) (Some (kp2 r)) (desc2 r).

End Startup.

(** ** The program as a whole: the operations that touch the shared state *)

Section System.
Context `{cv : OpenCV}.

(** A loop thread: its locals and how far it has got. *)
Record LoopThread : Type := mkLoopThread {
  th_locals : Locals;
  th_state : Outcome
}.

(** The shared state, the loop threads started so far, in the order of
    their start, and [stop_event]. *)
Record Sys : Type := mkSystem {
  sys_shared : Shared;
  sys_threads : list LoopThread;
  sys_stop : bool
}.

(** The program with the one loop thread a start-up gives it. *)
Definition mkSys (sh : Shared) (lc : Locals) (state : Outcome) (stop : bool)
  : Sys :=
  mkSystem sh [mkLoopThread lc state] stop.

Inductive Op : Type :=
| OpCycle (i : nat) (env : CycleEnv)   (* loop thread [i] runs one iteration *)
| OpReload (rq : ReloadRequest)        (* POST /reload-logos *)
| OpStats                              (* GET /stats, GET /stats_html *)
| OpStreamRead                         (* one iteration of a viewer's generator *)
| OpShutdown                           (* shutdown_event *)
| OpStartup (opened : bool) (t0 : float).
    (* startup_event; [t0] is the clock the thread it starts reads on line 117 *)

(** One iteration of a loop thread: the stop test of line 119, then the
    body. *)
Definition thread_step (env : CycleEnv) (stop : bool) (sh : Shared)
    (th : LoopThread) : Shared * LoopThread :=
  match th_state th with
  | Running =>
      if stop then (sh, mkLoopThread (th_locals th) Stopped)
      else
        match cycle env sh (th_locals th) with
        | Ok (sh', lc', _) => (sh', mkLoopThread lc' Running)
        | Raise e => (sh, mkLoopThread (th_locals th) (Crashed e))
        end
  | _ => (sh, th)
  end.

(** [startup_event] on a program that is already set up: the logos are
    loaded again from the configured paths, and when the capture opens
    [stop_event] is cleared and one more loop thread is started. *)
Definition restart (opened : bool) (t0 : float) (s : Sys) : Sys :=
  let p := mkProcess (globals_of (registry (sys_shared s))) (Some true)
                     (sys_stop s) true in
  let '(p', e, _) := startup_event opened p in
  let r := match registry_of (p_globals p') with
           | Some r => r
           | None => registry (sys_shared s)
           end in
  mkSystem (set_registry r (sys_shared s))
           (match e with
            | None => sys_threads s ++ [mkLoopThread (mkLocals 0 t0) Running]
            | Some _ => sys_threads s
            end)
           (p_stop p').

Definition apply_op (op : Op) (s : Sys) : Sys :=
  match op with
  | OpCycle i env =>
      match sys_threads s !! i with
      | Some th =>
          let '(sh', th') := thread_step env (sys_stop s) (sys_shared s) th in
          mkSystem sh' (<[i := th']> (sys_threads s)) (sys_stop s)
      | None => s
      end
  | OpReload rq =>
      let '(r, _, _) := reload_logos rq (registry (sys_shared s)) in
      mkSystem (set_registry r (sys_shared s)) (sys_threads s) (sys_stop s)
  | OpStats => s
  | OpStreamRead => s
  | OpShutdown => mkSystem (sys_shared s) (sys_threads s) true
  | OpStartup opened t0 => restart opened t0 s
  end.


Definition run_ops (ops : list Op) (s : Sys) : Sys :=
  fold_left (fun s op => apply_op op s) ops s.

(** ** The reload handler and the loop thread side by side

    The handler runs on the server's thread and the loop on its own; the
    registry globals are read and written without a lock, so the
    statements below may be scheduled in any order that keeps each thread's
    own order. *)

Inductive Stmt : Type :=
| SetLogo1Img (img : Image)   (* handler, line 286 *)
| SetFeat1                    (* handler, line 287 *)
| SetLogo2Img (img : Image)   (* handler, line 289 *)
| SetFeat2                    (* handler, line 290 *)
| ReadDesc1                   (* loop, line 135: desc1 *)
| ReadDesc2                   (* loop, line 138: desc2 *)
| ReadDraw1                   (* loop, lines 142-145: logo1_img, kp1 *)
| ReadDraw2.                  (* loop, lines 146-149: logo2_img, kp2 *)

(** What the loop thread got from a global. *)
Inductive Read : Type :=
| GotDesc1 (d : option Descs)
| GotDesc2 (d : option Descs)
| GotDraw1 (img : Image) (kp : KeyPoints)
| GotDraw2 (img : Image) (kp : KeyPoints).

Record Conc : Type := mkConc {
  c_registry : Registry;
  c_reads : list Read;          (* in the order the loop made them *)
  c_reload_exn : option exn     (* the handler has raised *)
}.

Definition handler_stmt (f : Registry -> Registry * option exn) (c : Conc) : Conc :=
  match c_reload_exn c with
  | Some _ => c
  | None => let '(r, e) := f (c_registry c) in mkConc r (c_reads c) e
  end.

Definition loop_read (f : Registry -> Read) (c : Conc) : Conc :=
  mkConc (c_registry c) (c_reads c ++ [f (c_registry c)]) (c_reload_exn c).

Definition feat_stmt (img : Registry -> Image)
    (set : KeyPoints * option Descs -> Registry -> Registry) (r : Registry)
  : Registry * option exn :=
  match detectAndCompute (img r) with
  | Ok kd => (set kd r, None)
  | Raise e => (r, Some e)
  end.

Definition exec_stmt (s : Stmt) (c : Conc) : Conc :=
  match s with
  | SetLogo1Img img => handler_stmt (fun r => (set_logo1_img img r, None)) c
  | SetFeat1 => handler_stmt (feat_stmt logo1_img set_feat1) c
  | SetLogo2Img img => handler_stmt (fun r => (set_logo2_img img r, None)) c
  | SetFeat2 => handler_stmt (feat_stmt logo2_img set_feat2) c
  | ReadDesc1 => loop_read (fun r => GotDesc1 (desc1 r)) c
  | ReadDesc2 => loop_read (fun r => GotDesc2 (desc2 r)) c
  | ReadDraw1 => loop_read (fun r => GotDraw1 (logo1_img r) (kp1 r)) c
  | ReadDraw2 => loop_read (fun r => GotDraw2 (logo2_img r) (kp2 r)) c
  end.

Definition exec (sched : list Stmt) (r : Registry) : Conc :=
  fold_left (fun c s => exec_stmt s c) sched (mkConc r [] None).

(** Lines 285-290 as the handler's statements. *)
Definition slot_stmts (set_img : Image -> Stmt) (set_feat : Stmt)
    (new_logo : option Image) : list Stmt :=
  match new_logo with
  | Some img => [set_img img; set_feat]
  | None => []
  end.

Definition reload_stmts (new_logo1 new_logo2 : option Image) : list Stmt :=
  slot_stmts SetLogo1Img SetFeat1 new_logo1 ++ slot_stmts SetLogo2Img SetFeat2 new_logo2.

(** The registry reads of one iteration that reaches line 135. *)
Definition cycle_reads : list Stmt := [ReadDesc1; ReadDesc2; ReadDraw1; ReadDraw2].

(** The schedules of two threads: every merge that keeps both orders. *)
Inductive interleave {A : Type} : list A -> list A -> list A -> Prop :=
| interleave_nil : interleave [] [] []
| interleave_l a l r s : interleave l r s -> interleave (a :: l) r (a :: s)
| interleave_r a l r s : interleave l r s -> interleave l (a :: r) (a :: s).

(** The first reference entry as the loop thread put it together. *)
Fixpoint seen_desc1 (reads : list Read) : option (option Descs) :=
  match reads with
  | [] => None
  | GotDesc1 d :: _ => Some d
  | _ :: rest => seen_desc1 rest
  end.

Fixpoint seen_draw1 (reads : list Read) : option (Image * KeyPoints) :=
  match reads with
  | [] => None
  | GotDraw1 img kp :: _ => Some (img, kp)
  | _ :: rest => seen_draw1 rest
  end.

Definition seen_entry1 (reads : list Read)
  : option (Image * KeyPoints * option Descs) :=
  match seen_draw1 reads, seen_desc1 reads with
  | Some (img, kp), Some d => Some (img, kp, d)
  | _, _ => None
  end.

Definition entry1 (r : Registry) : Image * KeyPoints * option Descs :=
  (logo1_img r, kp1 r, desc1 r).

Definition entry2 (r : Registry) : Image * KeyPoints * option Descs :=
  (logo2_img r, kp2 r, desc2 r).

(** The entry a load of [img] produces. *)
Definition loaded_entry (img : Image) (kd : KeyPoints * option Descs)
  : Image * KeyPoints * option Descs :=
  (img, fst kd, snd kd).

End System.

(** ** The sentences of the hot-reload contract, read input by input *)

Section Contract.
Context `{cv : OpenCV}.

(** The images the inputs of a request decode to, every supplied input
    counted: both uploads and both paths. *)
Definition decoded (data : list Byte.byte) : option Image :=
  match imdecode data with
  | Ok img => img
  | Raise _ => None
  end.

Definition supplied_images (rq : ReloadRequest) : list Image :=
  omap (fun o => o ≫= decoded) [logo1_file rq; logo2_file rq]
  ++ omap (fun o => o ≫= imread) [logo1_path rq; logo2_path rq].

Definition client_error (resp : Response) : bool :=
  match resp with
  | HTTPException code _ => (400 <=? code)%Z && (code <? 500)%Z
  | _ => false
  end.

End Contract.

Section Shapes.
Context `{cv : OpenCV}.

(** ** Shapes and counts used to state the properties of a run *)

Definition is_float (v : option pyval) : Prop :=
  exists f, v = Some (PyFloat f).

Definition is_count (v : option pyval) : Prop :=
  exists n, v = Some (PyInt n) /\ (0 <= n)%Z.

(** The statistics have the five keys of the initial dictionary, the rates
    and times as floats and the match counts as non-negative integers. *)
Definition stats_shape (st : gmap string pyval) : Prop :=
  dom st = dom initial_stats /\
  is_float (st !! "fps") /\
  is_count (st !! "logo1_matches") /\
  is_count (st !! "logo2_matches") /\
  is_float (st !! "last_update") /\
  is_float (st !! "mem_mb").

(** The pauses among the events of a run. *)
Definition sleeps (evs : list Event) : list float :=
  flat_map (fun e => match e with Sleep s => [s] | Release => [] end) evs.

(** The pause lines 120-127 prescribe for an iteration. *)
Definition backoff (env : CycleEnv) : list float :=
  if negb (cap_opened env) then [0.1%float]
  else
    match cap_read env with
    | (true, Some _) => []
    | _ => [0.02%float]
    end.

(** A run followed by another that starts where the first one stands. *)
Definition then_run (r1 r2 : LoopRun) : LoopRun :=
  mkLoopRun (run_shared r2) (run_locals r2) (run_events r1 ++ run_events r2)
            (run_cycles r1 + run_cycles r2) (run_outcome r2).

(** The header of a chunk: the boundary line, the content type and the
    empty line. *)
Definition chunk_header : list Byte.byte :=
  String.list_byte_of_string "--frame" ++ crlf
  ++ String.list_byte_of_string "Content-Type: image/jpeg" ++ crlf ++ crlf.

(** Each entry of the registry pairs an image with the features the
    detector gives for that very image. *)
Definition entries_consistent (r : Registry) : Prop :=
  detectAndCompute (logo1_img r) = Ok (kp1 r, desc1 r) /\
  detectAndCompute (logo2_img r) = Ok (kp2 r, desc2 r).

End Shapes.

(** ** The standalone script [SIFT.py]

    The script runs the same pipeline in the foreground: it shows its
    results in windows and on the console, looks for features on every
    fifth frame only and ends on the first failed read or on the ESC key. *)

(** [cv2.drawKeypoints(frame, kp_frame, None)], which only the script
    calls. *)
Class HighGui (cv : OpenCV) : Type := {
  drawKeypoints : Image -> KeyPoints -> Image
}.

Section Script.
Context `{cv : OpenCV} {gui : HighGui cv}.

(** What the script does that can be seen from outside. *)
Inductive ScriptEvent : Type :=
| Print (line : string)
| ImShow (winname : string) (img : Image)
| CapRelease
| DestroyAllWindows.

(** [frame_count], [fps_counter], [last_fps_time] *)
Record ScriptLocals : Type := mkScriptLocals {
  frame_count : Z;
  s_fps_counter : Z;
  s_last_fps_time : float
}.

(** What one iteration of the script reads from outside. *)
Record ScriptEnv : Type := mkScriptEnv {
  s_read : bool * option Image;   (* ret, frame = cap.read() *)
  s_now : float;                  (* time.time() on line 78 *)
  s_key : Z                       (* cv2.waitKey(1) *)
}.

(** How an iteration leaves the loop body. *)
Inductive Ctl : Type :=
| Next
| Break
| Uncaught (e : exn).

(** Lines 61-64 (and 66-69): the matches window, shown for more than 50
    good matches. *)
Definition show_if_many (winname : string) (logo : Image) (kp : KeyPoints)
    (frame : Image) (kp_frame : KeyPoints) (good : list DMatch)
  : list ScriptEvent * option exn :=
  if 50 <? length good then
    match drawMatches logo kp frame kp_frame good with
    | Ok img_matches => ([ImShow winname img_matches], None)
    | Raise e => ([], Some e)
    end
  else ([], None).

(** How the body of [if frame_count % 5 == 0] ends: at its last line, by
    the [continue] of line 47, or by an exception. *)
Inductive Detected : Type :=
| Shown
| Skipped
| Failed (e : exn).

(** Lines 44-72: the body of [if frame_count % 5 == 0], with what it
    shows. *)
Definition detect_part (reg : Registry) (frame : Image)
  : list ScriptEvent * Detected :=
  match detectAndCompute frame with
  | Raise e => ([], Failed e)
  | Ok (kp_frame, None) => ([], Skipped)
  | Ok (kp_frame, Some desc_frame) =>
      match knnMatch (desc1 reg) desc_frame 2 with
      | Raise e => ([], Failed e)
      | Ok matches1 =>
          let good1 := good_matches matches1 in
          match knnMatch (desc2 reg) desc_frame 2 with
          | Raise e => ([], Failed e)
          | Ok matches2 =>
              let good2 := good_matches matches2 in
              let line := "Logo1: " +:+ pretty (length good1)
                          +:+ " matches | Logo2: " +:+ pretty (length good2)
                          +:+ " matches" in
              match show_if_many "Matches1" (logo1_img reg) (kp1 reg) frame kp_frame good1 with
              | (ev1, Some e) => (Print line :: ev1, Failed e)
              | (ev1, None) =>
                  match show_if_many "Matches2" (logo2_img reg) (kp2 reg) frame kp_frame good2 with
                  | (ev2, Some e) => (Print line :: ev1 ++ ev2, Failed e)
                  | (ev2, None) =>
                      (Print line :: ev1 ++ ev2
                         ++ [ImShow "KeyPoints" (drawKeypoints frame kp_frame)],
                       Shown)
                  end
              end
          end
      end
  end.

(** Lines 74-85: the frame window, the FPS line and the ESC test. *)
Definition show_and_count (env : ScriptEnv) (frame : Image) (st : ScriptLocals)
  : ScriptLocals * list ScriptEvent * Ctl :=
  let fps_counter := (s_fps_counter st + 1)%Z in
  let current_time := s_now env in
  let '(st', fps_line) :=
    if (1 <=? current_time - s_last_fps_time st)%float then
      (mkScriptLocals (frame_count st) 0 current_time,
       [Print ("FPS: " +:+ pretty fps_counter)])
    else (mkScriptLocals (frame_count st) fps_counter (s_last_fps_time st), []) in
  (st', ImShow "Video" frame :: fps_line,
   if (Z.land (s_key env) 255 =? 27)%Z then Break else Next).

(** Lines 35-85: one iteration of [while True]. *)
Definition script_iteration (reg : Registry) (env : ScriptEnv) (st : ScriptLocals)
  : ScriptLocals * list ScriptEvent * Ctl :=
  match s_read env with
  | (true, Some frame) =>
      let frame := resize frame (320, 240) in
      let st := mkScriptLocals (frame_count st + 1) (s_fps_counter st)
                               (s_last_fps_time st) in
      if (frame_count st mod 5 =? 0)%Z then
        match detect_part reg frame with
        | (ev, Failed e) => (st, ev, Uncaught e)
        | (ev, Skipped) => (st, ev, Next)        (* continue *)
        | (ev, Shown) =>
            let '(st', ev', ctl) := show_and_count env frame st in
            (st', ev ++ ev', ctl)
        end
      else show_and_count env frame st
  | _ => (st, [Print "⚠️ Frame vacío."], Break)
  end.

Inductive ScriptOutcome : Type :=
| Finished                 (* left the loop by [break] *)
| Died (e : exn)           (* an exception nobody catches *)
| Exited                   (* [exit()] before the loop *)
| StillRunning.            (* the recorded environment is exhausted *)

(** The [while True] loop and lines 87-88 after it. *)
Fixpoint script_loop (reg : Registry) (envs : list ScriptEnv) (st : ScriptLocals)
  : list ScriptEvent * ScriptOutcome :=
  match envs with
  | [] => ([], StillRunning)
  | env :: rest =>
      match script_iteration reg env st with
      | (st', ev, Next) =>
          let '(evs, o) := script_loop reg rest st' in (ev ++ evs, o)
      | (_, ev, Break) => (ev ++ [CapRelease; DestroyAllWindows], Finished)
      | (_, ev, Uncaught e) => (ev, Died e)
      end
  end.

(** The whole script; [opened] is [cap.isOpened()] on line 8 and [t0] the
    [time.time()] of line 32. *)
Definition script_main (opened : bool) (t0 : float) (envs : list ScriptEnv)
  : list ScriptEvent * ScriptOutcome :=
  if negb opened then
    ([Print "❌ Error: No se pudo abrir el stream del celular."], Exited)
  else
    match imread "Coca_Cola_Logo.jpg", imread "logo2.jpg" with
    | Some logo1, Some logo2 =>
        match detectAndCompute logo1 with
        | Raise e => ([], Died e)
        | Ok kd1 =>
            match detectAndCompute logo2 with
            | Raise e => ([], Died e)
            | Ok kd2 =>
                script_loop (mkRegistry logo1 (fst kd1) (snd kd1)
                                        logo2 (fst kd2) (snd kd2))
                            envs (mkScriptLocals 0 0 t0)
            end
        end
    | _, _ => ([Print "❌ Error: No se pudo cargar uno o ambos logos."], Exited)
    end.

(** The iterations of a script run that begin with a successful read. *)
Definition frames_read (envs : list ScriptEnv) : nat :=
  length (List.filter (fun env => match s_read env with
                                  | (true, Some _) => true
                                  | _ => false
                                  end) envs).

End Script.

(** ** A concrete instance of the OpenCV operations

    Images are terms that record how they were built, so that two images
    are equal only when they were produced the same way. *)

Module Toy.

Inductive img : Type :=
| Raw (id : Z)
| Resized (i : img) (w h : nat)
| Matches (a : img) (ka : nat) (b : img) (kb : nat) (drawn : nat)
| HStack (a b : img)
| Text (i : img) (s : string) (x y : nat).

(** The picture an image was made from. *)
Fixpoint raw_id (i : img) : Z :=
  match i with
  | Raw id => id
  | Resized i _ _ => raw_id i
  | Matches _ _ b _ _ => raw_id b
  | HStack a _ => raw_id a
  | Text i _ _ _ => raw_id i
  end.

(** Picture 0 is blank (no keypoint), pictures below 0 make the detector
    raise, picture 1 has three identical features, picture 2 has two
    distinct ones, any other picture has a single feature. *)
Definition features (id : Z) : result (nat * option Descs) :=
  if (id <? 0)%Z then Raise (cv2_error "detectAndCompute")
  else if (id =? 0)%Z then Ok (0, None)
  else if (id =? 1)%Z then Ok (3, Some [[0%float]; [0%float]; [0%float]])
  else if (id =? 2)%Z then Ok (2, Some [[1%float]; [10%float]])
  else Ok (1, Some [[float_of_Z id]]).

(** A payload of one byte decodes to the picture of that number, no longer
    payload decodes, and the decoder raises on an empty payload. *)
Definition decode (data : list Byte.byte) : result (option img) :=
  match data with
  | [] => Raise (cv2_error "imdecode: empty buffer")
  | [b] => Ok (Some (Raw (Z.of_N (Byte.to_N b))))
  | _ => Ok None
  end.

(** Rounding to float32, and the Euclidean distance computed in float32
    from left to right. *)
Definition to_float32 (x : float) : spec_float :=
  SFmul 24 128 (Prim2SF x) (Prim2SF 1%float).

Definition l2_float32 (a b : descriptor) : float :=
  SF2Prim
    (SFsqrt 24 128
       (fold_left
          (fun acc xy =>
             let t := SFsub 24 128 (to_float32 (fst xy)) (to_float32 (snd xy)) in
             SFadd 24 128 acc (SFmul 24 128 t t))
          (combine a b) (Prim2SF 0%float))).

(** Two files exist on disk. *)
Definition read (path : string) : option img :=
  if String.eqb path "logo1.jpg" then Some (Raw 1)
  else if String.eqb path "logo2.jpg" then Some (Raw 3)
  else None.

#[global] Instance toy_cv : OpenCV := {|
  Image := img;
  KeyPoints := nat;
  resize := fun i sz => Resized i (fst sz) (snd sz);
  detectAndCompute := fun i => features (raw_id i);
  drawMatches := fun a ka b kb good => Ok (Matches a ka b kb (length good));
  hstack := HStack;
  putText := fun i s org => Text i s (fst org) (snd org);
  imencode := fun i q => (true, String.list_byte_of_string (pretty (raw_id i)));
  imdecode := decode;
  imread := read;
  normL2 := l2_float32
|}.

(** The registry [load_logos] builds from pictures 1 and 3. *)
Definition reg0 : Registry :=
  mkRegistry (Raw 1) 3 (Some [[0%float]; [0%float]; [0%float]])
             (Raw 3) 1 (Some [[float_of_Z 3]]).

Definition shared0 : Shared := mkShared reg0 initial_stats None.

Definition locals0 : Locals := mkLocals 0 100%float.

(** An iteration that gets picture [id] from the camera at time [now]. *)
Definition env_frame (id : Z) (now : float) : CycleEnv :=
  mkCycleEnv CapOpen (true, Some (Raw id)) now 42%float now.

(** An iteration on which [cap.read()] fails. *)
Definition env_absent : CycleEnv :=
  mkCycleEnv CapOpen (false, None) 0%float 0%float 0%float.

(** An iteration on which the capture is not open. *)
Definition env_closed : CycleEnv :=
  mkCycleEnv CapClosed (false, None) 0%float 0%float 0%float.

(** An iteration that finds [cap] still [None]. *)
Definition env_no_cap : CycleEnv :=
  mkCycleEnv CapNone (false, None) 0%float 0%float 0%float.

(** Descriptor sets of a three-feature logo and of a two-feature frame,
    and what the matcher returns on them. *)
Definition logo_descs : Descs := [[0%float]; [0%float]; [0%float]].
Definition frame_descs : Descs := [[1%float]; [10%float]].

Definition logo_frame_matches : list (list DMatch) :=
  [[mkDMatch 0 0 1%float; mkDMatch 0 1 10%float];
   [mkDMatch 1 0 1%float; mkDMatch 1 1 10%float];
   [mkDMatch 2 0 1%float; mkDMatch 2 1 10%float]].

(** A run on which the source gives nothing. *)
Definition absent_envs : list (bool * CycleEnv) :=
  [(false, env_absent); (false, env_closed); (false, env_absent)].

(** A run whose first frame makes the detector raise and whose second
    frame is an ordinary one. *)
Definition crash_envs : list (bool * CycleEnv) :=
  [(false, env_frame (-1) 100.5%float); (false, env_frame 2 100.6%float)].

(** A shared state in which a frame has been published. *)
Definition shared1 : Shared := mkShared reg0 initial_stats (Some (Raw 7)).

(** The program in that state, and a stretch of operations during an
    outage of the source. *)
Definition sys1 : Sys := mkSys shared1 locals0 Running false.

Definition outage_ops : list Op :=
  [OpCycle 0 env_absent; OpStreamRead; OpCycle 0 (env_frame 0 100.5%float);
   OpReload (mkReloadRequest None None (Some "logo2.jpg") None);
   OpStats; OpCycle 0 (env_frame (-1) 100.7%float); OpCycle 0 env_closed;
   OpStartup true 100.8%float; OpReload (mkReloadRequest (Some []) None None None);
   OpShutdown; OpCycle 0 env_absent].

(** Two reads of a viewer between which the loop publishes nothing. *)
Definition stale_polls : list (bool * Shared) :=
  [(false, shared1); (false, shared1)].

(** A request whose upload for slot 1 does not decode while its path for
    the same slot names a readable logo; nothing is sent for slot 2. *)
Definition shadow_request : ReloadRequest :=
  mkReloadRequest (Some [Byte.x07; Byte.x07]) None (Some "logo1.jpg") None.

(** A reload of slot 1 with picture 2, scheduled so that the loop makes
    its four reads between the handler's two assignments. *)
Definition torn_schedule : list Stmt :=
  [SetLogo1Img (Raw 2); ReadDesc1; ReadDesc2; ReadDraw1; ReadDraw2; SetFeat1].

End Toy.

(** ** A second instance and more runs

    [Studio] is [Toy] on a machine that has the two configured logo files
    on disk and on which the detector also fails on picture 9. *)

Module Studio.

Definition read (path : string) : option Toy.img :=
  if String.eqb path LOGO1_PATH then Some (Toy.Raw 1)
  else if String.eqb path LOGO2_PATH then Some (Toy.Raw 3)
  else Toy.read path.

Definition features (id : Z) : result (nat * option Descs) :=
  if (id =? 9)%Z then Raise (cv2_error "detectAndCompute") else Toy.features id.

Definition studio_cv : OpenCV := {|
  Image := Toy.img;
  KeyPoints := nat;
  resize := fun i sz => Toy.Resized i (fst sz) (snd sz);
  detectAndCompute := fun i => features (Toy.raw_id i);
  drawMatches := fun a ka b kb good => Ok (Toy.Matches a ka b kb (length good));
  hstack := Toy.HStack;
  putText := fun i s org => Toy.Text i s (fst org) (snd org);
  imencode := fun i q => (true, String.list_byte_of_string (pretty (Toy.raw_id i)));
  imdecode := Toy.decode;
  imread := read;
  normL2 := Toy.l2_float32
|}.

(** The registry of [Toy.reg0], on this instance. *)
Definition reg0 : @Registry studio_cv :=
  @mkRegistry studio_cv (Toy.Raw 1) 3 (Some [[0%float]; [0%float]; [0%float]])
              (Toy.Raw 3) 1 (Some [[float_of_Z 3]]).

(** A request that uploads picture 9 for slot 1 and picture 2 for slot 2. *)
Definition failing_request : ReloadRequest :=
  mkReloadRequest (Some [Byte.x09]) (Some [Byte.x02]) None None.

(** The program after a start-up on this machine and a shutdown. *)
Definition stopped_sys : @Sys studio_cv :=
  @mkSys studio_cv (@mkShared studio_cv reg0 initial_stats (Some (Toy.Raw 7)))
         (mkLocals 0 100%float) Running true.

End Studio.

Module ToyRuns.
Import Toy.

(** The iteration of [Toy] that gets picture 2 from the camera, and the
    state it leaves. *)
Definition publishing_env : CycleEnv := env_frame 2 100.5%float.

Definition published : Shared * Locals * list Event :=
  match cycle publishing_env shared0 locals0 with
  | Ok x => x
  | Raise _ => (shared0, locals0, [])
  end.

(** The program after a shutdown, with a frame published before it. *)
Definition stopped_sys : Sys := mkSys shared1 locals0 Running true.


(** A run that the stop signal ends before any capture exists, and one it
    ends with the capture open. *)
Definition stop_without_cap : list (bool * CycleEnv) :=
  [(false, env_no_cap); (true, env_no_cap)].

Definition stop_with_cap : list (bool * CycleEnv) :=
  [(false, env_absent); (true, env_absent)].

(** A request with an empty upload for slot 1 and the path of a logo for
    slot 2. *)
Definition empty_upload_request : ReloadRequest :=
  mkReloadRequest (Some []) None None (Some "logo2.jpg").

End ToyRuns.

Module ScriptRuns.

Definition toy_gui : HighGui Toy.toy_cv :=
  Build_HighGui Toy.toy_cv (fun i kp => Toy.Text i "keypoints" kp 0).

Definition studio_gui : HighGui Studio.studio_cv :=
  Build_HighGui Studio.studio_cv (fun i kp => Toy.Text i "keypoints" kp 0).

(** The script's counters after its fourth frame and after its fifth. *)
Definition at_frame4 : ScriptLocals := mkScriptLocals 4 4 100%float.
Definition at_frame5 : ScriptLocals := mkScriptLocals 5 5 100%float.

(** A read of picture [id] with key code [key] waiting. *)
Definition read_of (id : Z) (key : Z) : @ScriptEnv Toy.toy_cv :=
  @mkScriptEnv Toy.toy_cv (true, Some (Toy.Raw id)) 100.5%float key.

Definition failed_read : @ScriptEnv Toy.toy_cv :=
  @mkScriptEnv Toy.toy_cv (false, None) 100.5%float (-1).

(** The registry of [Toy.reg0] with its two entries exchanged. *)
Definition other_reg : @Registry Toy.toy_cv :=
  @mkRegistry Toy.toy_cv (Toy.Raw 3) 1 (Some [[float_of_Z 3]])
              (Toy.Raw 1) 3 (Some [[0%float]; [0%float]; [0%float]]).

End ScriptRuns.

(** * Properties *)

(** ** The matcher and the ratio test *)

Section MatcherFacts.
Context `{cv : OpenCV}.

Lemma insert_match_length d l : length (insert_match d l) = S (length l).
Proof.
  induction l as [|x r IH]; simpl; [reflexivity|].
  destruct (distance d <=? distance x)%float; simpl; [reflexivity|].
  now rewrite IH.
Qed.

Lemma sort_matches_length l : length (sort_matches l) = length l.
Proof.
  induction l as [|d r IH]; simpl; [reflexivity|].
  now rewrite insert_match_length, IH.
Qed.

Lemma candidates_from_length qi q ti train :
  length (candidates_from qi q ti train) <= length train.
Proof.
  revert ti; induction train as [|t r IH]; intros ti; simpl; [lia|].
  specialize (IH (S ti)).
  destruct (normL2 q t <? FLT_MAX)%float; simpl; lia.
Qed.

Lemma knn_row_length k train qi q :
  length (knn_row k train qi q) <= Nat.min k (length train).
Proof.
  unfold knn_row.
  rewrite length_firstn, sort_matches_length.
  pose proof (candidates_from_length qi q 0 train). lia.
Qed.

Lemma knn_rows_length k train qi query :
  length (knn_rows k train qi query) = length query.
Proof.
  revert qi; induction query as [|q r IH]; intros qi; simpl; [reflexivity|].
  now rewrite IH.
Qed.

Lemma knn_rows_In k train qi query m :
  In m (knn_rows k train qi query) -> length m <= Nat.min k (length train).
Proof.
  revert qi; induction query as [|q r IH]; intros qi; simpl; [tauto|].
  intros [<-|Hin]; [apply knn_row_length | eauto].
Qed.

(** Every call that returns gives at most one result set per query row,
    and each result set holds at most [min k n] entries for [n] train
    rows. *)
Lemma knnMatch_shape query train k matches :
  knnMatch query train k = Ok matches ->
  length matches <= rows query /\
  (forall m, In m matches -> length m <= Nat.min k (length train)).
Proof.
  unfold knnMatch.
  destruct query as [[|q0 qs]|]; simpl.
  - intros [= <-]; simpl; split; [lia | tauto].
  - destruct train as [|t0 ts].
    + intros [= <-]; simpl; split; [lia | tauto].
    + destruct (_ && _); [|discriminate].
      intros [= <-]; split.
      * change (knn_row k (t0 :: ts) 0 q0 :: knn_rows k (t0 :: ts) 1 qs)
          with (knn_rows k (t0 :: ts) 0 (q0 :: qs)).
        rewrite knn_rows_length; simpl; lia.
      * intros m Hm.
        apply (knn_rows_In k (t0 :: ts) 0 (q0 :: qs) m Hm).
  - intros [= <-]; simpl; split; [lia | tauto].
Qed.

(** The entries of a result set carry the index of its query row. *)
Lemma insert_match_In c d l : In c (insert_match d l) -> c = d \/ In c l.
Proof.
  induction l as [|x r IH]; simpl; [intuition auto|].
  destruct (distance d <=? distance x)%float; simpl; [intuition auto|].
  intros [<-|Hin]; [tauto|]. destruct (IH Hin); tauto.
Qed.

Lemma sort_matches_In c l : In c (sort_matches l) -> In c l.
Proof.
  induction l as [|d r IH]; simpl; [tauto|].
  intros Hin. apply insert_match_In in Hin as [->|Hin]; [tauto|].
  right. now apply IH.
Qed.

Lemma candidates_from_query qi q ti train c :
  In c (candidates_from qi q ti train) -> queryIdx c = qi.
Proof.
  revert ti; induction train as [|t r IH]; intros ti; simpl; [tauto|].
  destruct (normL2 q t <? FLT_MAX)%float; simpl; [|apply IH].
  intros [<-|Hin]; [reflexivity | eapply IH; eassumption].
Qed.

Lemma firstn_In_inv (A : Type) k (l : list A) (x : A) :
  In x (firstn k l) -> In x l.
Proof.
  revert l; induction k as [|k IH]; intros [|y l]; simpl; try tauto.
  intros [->|Hin]; [tauto|]. right. now apply IH.
Qed.

Lemma knn_row_query k train qi q c :
  In c (knn_row k train qi q) -> queryIdx c = qi.
Proof.
  unfold knn_row. intros Hin.
  apply firstn_In_inv, sort_matches_In in Hin.
  eapply candidates_from_query; eassumption.
Qed.

Lemma knn_rows_query k train qi query m c :
  In m (knn_rows k train qi query) -> In c m -> qi <= queryIdx c.
Proof.
  revert qi; induction query as [|q r IH]; intros qi; simpl; [tauto|].
  intros [<-|Hin] Hc.
  - apply knn_row_query in Hc. lia.
  - specialize (IH (S qi) Hin Hc). lia.
Qed.

(** Two result sets with the same first entry are the same result set. *)
Lemma knn_rows_head_unique k train qi query m m' best :
  In m (knn_rows k train qi query) ->
  In m' (knn_rows k train qi query) ->
  hd_error m = Some best -> hd_error m' = Some best ->
  m = m'.
Proof.
  revert qi; induction query as [|q r IH]; intros qi; simpl; [tauto|].
  assert (Hhd : forall l : list DMatch, hd_error l = Some best -> In best l).
  { intros [|x l]; simpl; [discriminate|]. intros [= ->]. now left. }
  intros [<-|Hin] [<-|Hin'] Hm Hm'.
  - reflexivity.
  - apply Hhd in Hm, Hm'.
    apply knn_row_query in Hm.
    pose proof (knn_rows_query _ _ _ _ _ _ Hin' Hm'). lia.
  - apply Hhd in Hm, Hm'.
    apply knn_row_query in Hm'.
    pose proof (knn_rows_query _ _ _ _ _ _ Hin Hm). lia.
  - eapply IH; eassumption.
Qed.

Lemma knnMatch_head_unique query train k matches m m' best :
  knnMatch query train k = Ok matches ->
  In m matches -> In m' matches ->
  hd_error m = Some best -> hd_error m' = Some best ->
  m = m'.
Proof.
  unfold knnMatch.
  destruct query as [[|q0 qs]|]; simpl; try (intros [= <-]; simpl; tauto).
  destruct train as [|t0 ts]; [intros [= <-]; simpl; tauto|].
  destruct (_ && _); [|discriminate].
  intros [= <-].
  apply (knn_rows_head_unique k (t0 :: ts) 0 (q0 :: qs)).
Qed.

Lemma first_of_length m : length (first_of m) <= 1.
Proof. destruct m; simpl; lia. Qed.

Lemma good_matches_length matches :
  length (good_matches matches) <= length matches.
Proof.
  unfold good_matches.
  induction matches as [|m r IH]; simpl; [lia|].
  destruct (ratio_test m); simpl; [|lia].
  rewrite length_app. pose proof (first_of_length m). lia.
Qed.

Lemma ratio_test_short m : length m < 2 -> ratio_test m = false.
Proof.
  destruct m as [|a [|b r]]; simpl; intros H; try reflexivity; lia.
Qed.

Lemma good_matches_none matches :
  (forall m, In m matches -> ratio_test m = false) -> good_matches matches = [].
Proof.
  unfold good_matches.
  induction matches as [|m r IH]; simpl; intros H; [reflexivity|].
  rewrite (H m) by now left.
  apply IH; intros m' Hm'; apply H; now right.
Qed.

Lemma ratio_test_true m :
  ratio_test m = true <->
  exists best second,
    m = [best; second] /\
    (distance best <? RATIO_THRESH * distance second)%float = true.
Proof.
  unfold ratio_test. split.
  - intros H. apply andb_true_iff in H as [Hl Hd]. apply Nat.eqb_eq in Hl.
    destruct m as [|a [|b [|c r]]]; try discriminate. eauto.
  - intros (a & b & -> & Hd). simpl. exact Hd.
Qed.

(** C1. For every reference descriptor set and every non-empty frame
    descriptor set, a result set of [knnMatch(.., k=2)] is accepted as a
    good match -- its first entry is among the good matches the
    comprehension of lines 136/139 returns -- if and only if it has at
    least 2 entries and its best (first) distance is strictly less than
    [RATIO_THRESH] times its second-best distance. *)
Theorem ratio_test_accepts_iff (ref : option Descs) (frame : Descs)
    (matches : list (list DMatch)) (m : list DMatch) :
  frame <> [] ->
  knnMatch ref frame 2 = Ok matches ->
  In m matches ->
  ((exists best, hd_error m = Some best /\ In best (good_matches matches)) <->
   2 <= length m /\
   exists best second rest,
     m = best :: second :: rest /\
     (distance best <? RATIO_THRESH * distance second)%float = true).
Proof.
  intros _ Hknn Hin.
  destruct (knnMatch_shape _ _ _ _ Hknn) as [_ Hlen].
  specialize (Hlen m Hin).
  split.
  - intros (best & Hhd & Hgood).
    unfold good_matches in Hgood. apply in_flat_map in Hgood as (m' & Hm' & Hb).
    apply filter_In in Hm' as [Hin' Hrt].
    apply ratio_test_true in Hrt as (a & b & -> & Hd).
    simpl in Hb. destruct Hb as [->|[]].
    assert (m = [best; b]) as ->.
    { eapply knnMatch_head_unique; [exact Hknn | exact Hin | exact Hin' | exact Hhd |].
      reflexivity. }
    split; [simpl; lia|]. now exists best, b, [].
  - intros [Hge (best & second & rest & -> & Hd)].
    exists best. split; [reflexivity|].
    assert (rest = []) as ->.
    { destruct rest; [reflexivity|]. cbn [length] in Hlen. lia. }
    unfold good_matches. apply in_flat_map. exists [best; second]. split.
    + apply filter_In. split; [exact Hin|]. apply ratio_test_true. eauto.
    + simpl. now left.
Qed.

(** C2, amended. For a reference descriptor set of [m] rows and a frame
    descriptor set of [n] rows, the good-match output has between 0 and [m]
    entries (one at most per reference descriptor), and none when [n < 2]. *)
Theorem good_matches_size (ref : option Descs) (frame : Descs)
    (matches : list (list DMatch)) :
  knnMatch ref frame 2 = Ok matches ->
  0 <= length (good_matches matches) <= rows ref /\
  (length frame < 2 -> length (good_matches matches) = 0).
Proof.
  intros Hknn.
  destruct (knnMatch_shape _ _ _ _ Hknn) as [Hrows Hlen].
  pose proof (good_matches_length matches).
  split; [lia|].
  intros Hn. rewrite good_matches_none; [reflexivity|].
  intros m Hm. apply ratio_test_short. specialize (Hlen m Hm). lia.
Qed.

End MatcherFacts.

(** The nearest train row comes first, whatever the order of the train
    set; a single train row gives result sets of one entry; a train row
    whose distance overflows float32 is in no result set. *)
Example knnMatch_nearest_first :
  knnMatch (Some [[0%float]]) [[10%float]; [4%float]; [1%float]] 2
    = Ok [[mkDMatch 0 2 1%float; mkDMatch 0 1 4%float]].
Proof. vm_compute. reflexivity. Qed.

Example knnMatch_single_train_row :
  knnMatch (Some [[0%float]; [3%float]]) [[1%float]] 2
    = Ok [[mkDMatch 0 0 1%float]; [mkDMatch 1 0 2%float]].
Proof. vm_compute. reflexivity. Qed.

Example knnMatch_overflow :
  knnMatch (Some [[0%float]]) [[1e30%float]; [2%float]] 2
    = Ok [[mkDMatch 0 1 2%float]].
Proof. vm_compute. reflexivity. Qed.

Lemma ratio_test_accepts_iff_witness :
  let m := [mkDMatch 0 0 1%float; mkDMatch 0 1 10%float] in
  (exists best, hd_error m = Some best /\ In best (good_matches Toy.logo_frame_matches)) <->
  2 <= length m /\
  exists best second rest,
    m = best :: second :: rest /\
    (distance best <? RATIO_THRESH * distance second)%float = true.
Proof.
  apply (ratio_test_accepts_iff (Some Toy.logo_descs) Toy.frame_descs).
  - discriminate.
  - vm_compute. reflexivity.
  - simpl. auto.
Defined.

(** C2, as the specification has it, fails: three reference descriptors
    against two frame descriptors give three good matches, more than
    [min 3 2]. *)
Lemma good_matches_exceed_min :
  knnMatch (Some Toy.logo_descs) Toy.frame_descs 2 = Ok Toy.logo_frame_matches /\
  length (good_matches Toy.logo_frame_matches) = 3 /\
  ~ length (good_matches Toy.logo_frame_matches)
    <= Nat.min (length Toy.logo_descs) (length Toy.frame_descs).
Proof.
  split; [vm_compute; reflexivity|].
  split; [vm_compute; reflexivity|].
  vm_compute. lia.
Qed.

Lemma good_matches_size_witness :
  0 <= length (good_matches Toy.logo_frame_matches) <= rows (Some Toy.logo_descs) /\
  (length Toy.frame_descs < 2 -> length (good_matches Toy.logo_frame_matches) = 0).
Proof.
  apply (good_matches_size (Some Toy.logo_descs) Toy.frame_descs).
  vm_compute. reflexivity.
Defined.

(** ** The processing loop *)

Section LoopFacts.
Context `{cv : OpenCV}.

Lemma rate_accounting_keeps env sh lc :
  let sh' := fst (rate_accounting env sh lc) in
  last_frame sh' = last_frame sh /\
  registry sh' = registry sh /\
  (forall key, key <> "fps" -> shared_stats sh' !! key = shared_stats sh !! key).
Proof.
  unfold rate_accounting.
  destruct (1 <=? clock_now env - last_fps_time lc)%float; simpl.
  - repeat split; trivial. intros key Hkey. now rewrite lookup_insert_ne.
  - repeat split; trivial.
Qed.

(** An iteration that gets no frame changes nothing. *)
Lemma cycle_absent env sh lc :
  source_absent env = true ->
  exists ev, cycle env sh lc = Ok (sh, lc, ev).
Proof.
  unfold source_absent, cycle.
  destruct (cap_opened env); simpl; [|eauto].
  destruct (cap_read env) as [[|] [frame|]]; try discriminate; eauto.
Qed.

(** C3. A cycle whose frame yields no descriptor ([desc_frame is None])
    leaves the shared frame and the statistics fields [logo1_matches],
    [logo2_matches], [last_update] and [mem_mb] as they were, and is counted
    by the FPS accounting: the counter goes up by one, or, when the
    one-second window has elapsed, the cycle is included in the committed
    rate and the counter restarts at 0. *)
Theorem empty_descriptors_cycle (env : CycleEnv) (sh : Shared) (lc : Locals)
    (frame : Image) (kp_frame : KeyPoints) :
  cap_opened env = true ->
  cap_read env = (true, Some frame) ->
  detectAndCompute (resize frame FRAME_SIZE) = Ok (kp_frame, None) ->
  exists sh' lc',
    cycle env sh lc = Ok (sh', lc', []) /\
    last_frame sh' = last_frame sh /\
    registry sh' = registry sh /\
    shared_stats sh' !! "logo1_matches" = shared_stats sh !! "logo1_matches" /\
    shared_stats sh' !! "logo2_matches" = shared_stats sh !! "logo2_matches" /\
    shared_stats sh' !! "last_update" = shared_stats sh !! "last_update" /\
    shared_stats sh' !! "mem_mb" = shared_stats sh !! "mem_mb" /\
    (((1 <=? clock_now env - last_fps_time lc)%float = false /\
      fps_counter lc' = (fps_counter lc + 1)%Z /\
      last_fps_time lc' = last_fps_time lc /\
      shared_stats sh' !! "fps" = shared_stats sh !! "fps")
     \/
     ((1 <=? clock_now env - last_fps_time lc)%float = true /\
      shared_stats sh' !! "fps" =
        Some (PyFloat (float_of_Z (fps_counter lc + 1)
                       / (clock_now env - last_fps_time lc))) /\
      fps_counter lc' = 0%Z /\
      last_fps_time lc' = clock_now env)).
Proof.
  intros Hopen Hread Hdet.
  unfold cycle. rewrite Hopen, Hread. simpl. rewrite Hdet. simpl.
  pose proof (rate_accounting_keeps env sh lc) as (Hf & Hr & Hs).
  destruct (rate_accounting env sh lc) as [sh' lc'] eqn:Hra.
  simpl in Hf, Hr, Hs.
  exists sh', lc'.
  split; [reflexivity|].
  split; [assumption|]. split; [assumption|].
  do 4 (split; [now apply Hs|]).
  unfold rate_accounting in Hra.
  destruct (1 <=? clock_now env - last_fps_time lc)%float;
    injection Hra as <- <-; simpl.
  - right. repeat split. now rewrite lookup_insert_eq.
  - left. repeat split.
Qed.

End LoopFacts.

Lemma empty_descriptors_cycle_witness :
  exists sh' lc',
    cycle (Toy.env_frame 0 100.5%float) Toy.shared0 Toy.locals0 = Ok (sh', lc', []) /\
    last_frame sh' = last_frame Toy.shared0 /\
    fps_counter lc' = 1%Z.
Proof.
  destruct (empty_descriptors_cycle (Toy.env_frame 0 100.5%float) Toy.shared0
              Toy.locals0 (Toy.Raw 0) 0)
    as (sh' & lc' & Hc & Hf & _ & _ & _ & _ & _ & Hfps).
  - reflexivity.
  - reflexivity.
  - reflexivity.
  - exists sh', lc'. split; [exact Hc|]. split; [exact Hf|].
    destruct Hfps as [(_ & Hn & _)|(Hw & _)].
    + exact Hn.
    + vm_compute in Hw. discriminate Hw.
Defined.

(** ** Runs of the loop and of the generator *)

Section RunFacts.
Context `{cv : OpenCV}.

Lemma initial_stats_fps : initial_stats !! "fps" = Some (PyFloat 0%float).
Proof. reflexivity. Qed.

Lemma initial_stats_last_update :
  initial_stats !! "last_update" = Some (PyFloat 0%float).
Proof. reflexivity. Qed.

(** While the source gives no frame, a run stays in its first state. *)
Lemma loop_absent envs sh lc :
  Forall (fun e => source_absent (snd e) = true) envs ->
  run_shared (loop envs sh lc) = sh /\
  run_locals (loop envs sh lc) = lc /\
  Forall (eq sh) (loop_states envs sh lc).
Proof.
  induction 1 as [|[stop env] rest Habs _ IH]; simpl.
  - repeat split; constructor.
  - destruct stop; simpl; [repeat split; constructor|].
    destruct (cycle_absent env sh lc Habs) as [ev ->]. simpl.
    destruct IH as (IH1 & IH2 & IH3).
    repeat split; trivial. now constructor.
Qed.

(** A generator that never finds a frame yields no chunk. *)
Lemma generator_empty_store polls :
  Forall (fun p => last_frame (snd p) = None) polls ->
  chunks (mjpeg_generator polls) = [].
Proof.
  induction 1 as [|[stop sh] rest Hnone _ IH]; simpl; [reflexivity|].
  destruct stop; [reflexivity|].
  unfold mjpeg_step, read_frame. simpl in Hnone. rewrite Hnone. simpl.
  exact IH.
Qed.

(** C7. If the Frame Source gives no frame on any iteration, then in every
    state of the run started from the initial shared state the statistic
    [fps] is still 0 and [last_update] is still its initial 0.0, and a
    stream generator polling the states of that run yields no chunk. *)
Theorem absent_source_no_output (t0 : float) (envs : list (bool * CycleEnv))
    (reg : Registry) (polls : list (bool * Shared)) :
  let sh0 := mkShared reg initial_stats None in
  Forall (fun e => source_absent (snd e) = true) envs ->
  Forall (fun p => In (snd p) (sh0 :: loop_states envs sh0 (mkLocals 0 t0))) polls ->
  Forall (fun sh => get_stats sh !! "fps" = Some (PyFloat 0%float) /\
                    get_stats sh !! "last_update" = Some (PyFloat 0%float))
         (run_shared (processing_loop t0 envs sh0)
            :: loop_states envs sh0 (mkLocals 0 t0)) /\
  chunks (mjpeg_generator polls) = [].
Proof.
  intros sh0 Habs Hpolls.
  destruct (loop_absent envs sh0 (mkLocals 0 t0) Habs) as (Hsh & _ & Hst).
  assert (Hall : forall sh, In sh (sh0 :: loop_states envs sh0 (mkLocals 0 t0)) ->
                            sh = sh0).
  { intros sh [<-|Hin]; [reflexivity|].
    rewrite List.Forall_forall in Hst. symmetry. now apply Hst. }
  split.
  - unfold processing_loop. rewrite Hsh.
    apply List.Forall_forall. intros sh Hin.
    assert (sh = sh0) as ->.
    { destruct Hin as [<-|Hin]; [reflexivity|]. apply Hall. now right. }
    split; reflexivity.
  - apply generator_empty_store.
    eapply List.Forall_impl; [|exact Hpolls].
    intros [stop sh] Hin. simpl in *. now rewrite (Hall sh Hin).
Qed.

(** C5, amended. A cycle in which extraction or matching raises ends the
    Processing Loop: the exception leaves the [while], nothing is published
    (the shared state and the loop's counters stay as they were) and no
    later cycle runs. *)
Theorem exception_ends_loop (env : CycleEnv) (rest : list (bool * CycleEnv))
    (sh : Shared) (lc : Locals) (frame : Image) (e : exn) :
  cap_opened env = true ->
  cap_read env = (true, Some frame) ->
  (detectAndCompute (resize frame FRAME_SIZE) = Raise e \/
   exists kp_frame desc_frame,
     detectAndCompute (resize frame FRAME_SIZE) = Ok (kp_frame, Some desc_frame) /\
     (knnMatch (desc1 (registry sh)) desc_frame 2 = Raise e \/
      exists matches1,
        knnMatch (desc1 (registry sh)) desc_frame 2 = Ok matches1 /\
        knnMatch (desc2 (registry sh)) desc_frame 2 = Raise e)) ->
  cycle env sh lc = Raise e /\
  loop ((false, env) :: rest) sh lc = mkLoopRun sh lc [] 0 (Crashed e).
Proof.
  intros Hopen Hread Hraise.
  assert (Hc : cycle env sh lc = Raise e).
  { unfold cycle. rewrite Hopen, Hread. simpl.
    destruct Hraise as [-> | (kp & d & -> & Hm)]; [reflexivity|].
    simpl. unfold match_and_publish.
    destruct Hm as [-> | (m1 & -> & ->)]; reflexivity. }
  split; [exact Hc|].
  simpl. now rewrite Hc.
Qed.

End RunFacts.

Lemma absent_source_no_output_witness :
  Forall (fun sh => get_stats sh !! "fps" = Some (PyFloat 0%float) /\
                    get_stats sh !! "last_update" = Some (PyFloat 0%float))
         (run_shared (processing_loop 100%float Toy.absent_envs Toy.shared0)
            :: loop_states Toy.absent_envs Toy.shared0 (mkLocals 0 100%float)) /\
  chunks (mjpeg_generator [(false, Toy.shared0); (false, Toy.shared0)]) = [].
Proof.
  apply (absent_source_no_output 100%float Toy.absent_envs Toy.reg0
           [(false, Toy.shared0); (false, Toy.shared0)]).
  - repeat constructor.
  - repeat constructor.
Defined.

Lemma exception_ends_loop_witness :
  cycle (Toy.env_frame (-1) 100.5%float) Toy.shared0 Toy.locals0
    = Raise (cv2_error "detectAndCompute") /\
  loop Toy.crash_envs Toy.shared0 Toy.locals0
    = mkLoopRun Toy.shared0 Toy.locals0 [] 0 (Crashed (cv2_error "detectAndCompute")).
Proof.
  apply (exception_ends_loop (Toy.env_frame (-1) 100.5%float)
           [(false, Toy.env_frame 2 100.6%float)] Toy.shared0 Toy.locals0
           (Toy.Raw (-1))).
  - reflexivity.
  - reflexivity.
  - left. reflexivity.
Defined.

(** C5, as the specification has it, fails: the detector raises on the
    first frame of the run; the loop ends there, and the second frame,
    which would have been published had the loop gone on, never is. *)
Lemma loop_dies_on_exception :
  cycle (Toy.env_frame (-1) 100.5%float) Toy.shared0 Toy.locals0
    = Raise (cv2_error "detectAndCompute") /\
  run_outcome (loop Toy.crash_envs Toy.shared0 Toy.locals0)
    = Crashed (cv2_error "detectAndCompute") /\
  run_cycles (loop Toy.crash_envs Toy.shared0 Toy.locals0) = 0 /\
  last_frame (run_shared (loop Toy.crash_envs Toy.shared0 Toy.locals0)) = None /\
  run_outcome (loop (tl Toy.crash_envs) Toy.shared0 Toy.locals0) = Running /\
  run_cycles (loop (tl Toy.crash_envs) Toy.shared0 Toy.locals0) = 1 /\
  last_frame (run_shared (loop (tl Toy.crash_envs) Toy.shared0 Toy.locals0)) <> None.
Proof.
  repeat split; try (vm_compute; reflexivity).
  vm_compute. discriminate.
Qed.

(** ** The published frame is never taken back *)

Section FrameFacts.
Context `{cv : OpenCV}.

Lemma match_and_publish_frame env frame kp d sh sh' :
  match_and_publish env frame kp d sh = Ok sh' -> is_Some (last_frame sh').
Proof.
  unfold match_and_publish.
  destruct (knnMatch (desc1 (registry sh)) d 2) as [m1|]; [|discriminate].
  destruct (knnMatch (desc2 (registry sh)) d 2) as [m2|]; [|discriminate].
  simpl.
  destruct (drawMatches (logo1_img _) _ _ _ _) as [i1|]; [|discriminate].
  destruct (drawMatches (logo2_img _) _ _ _ _) as [i2|]; [|discriminate].
  simpl. intros [= <-]. simpl. eauto.
Qed.

Lemma cycle_keeps_frame env sh lc sh' lc' ev :
  cycle env sh lc = Ok (sh', lc', ev) ->
  is_Some (last_frame sh) -> is_Some (last_frame sh').
Proof.
  unfold cycle. intros Hc Hsome.
  destruct (cap_opened env); simpl in Hc; [|now injection Hc as <- _ _].
  destruct (cap_read env) as [[|] [frame|]];
    try now injection Hc as <- _ _.
  destruct (detectAndCompute _) as [[kp [d|]]|]; simpl in Hc; try discriminate.
  - destruct (match_and_publish env _ kp d sh) as [sh1|] eqn:Hm;
      simpl in Hc; [|discriminate].
    pose proof (rate_accounting_keeps env sh1 lc) as (Hf & _).
    destruct (rate_accounting env sh1 lc) as [sh2 lc2]. simpl in Hf.
    injection Hc as <- _ _. rewrite Hf.
    eapply match_and_publish_frame; eassumption.
  - pose proof (rate_accounting_keeps env sh lc) as (Hf & _).
    destruct (rate_accounting env sh lc) as [sh2 lc2]. simpl in Hf.
    injection Hc as <- _ _. now rewrite Hf.
Qed.

Lemma thread_step_keeps_frame env stop sh th :
  is_Some (last_frame sh) ->
  is_Some (last_frame (fst (thread_step env stop sh th))).
Proof.
  intros Hsome. unfold thread_step.
  destruct (th_state th); trivial.
  destruct stop; trivial.
  destruct (cycle env sh (th_locals th)) as [[[sh' lc'] ev]|] eqn:Hc; simpl; trivial.
  eapply cycle_keeps_frame; eassumption.
Qed.

Lemma restart_last_frame opened t0 s :
  last_frame (sys_shared (restart opened t0 s)) = last_frame (sys_shared s).
Proof.
  unfold restart.
  destruct (startup_event opened _) as [[p' e] io]. reflexivity.
Qed.

Lemma apply_op_keeps_frame op s :
  is_Some (last_frame (sys_shared s)) ->
  is_Some (last_frame (sys_shared (apply_op op s))).
Proof.
  intros Hsome. destruct op as [i env|rq| | | |opened t0]; simpl; trivial.
  - destruct (sys_threads s !! i) as [th|]; trivial.
    pose proof (thread_step_keeps_frame env (sys_stop s) (sys_shared s) th Hsome) as H.
    destruct (thread_step env (sys_stop s) (sys_shared s) th) as [sh' th'].
    exact H.
  - destruct (reload_logos rq (registry (sys_shared s))) as [[r resp] io].
    simpl. exact Hsome.
  - now rewrite restart_last_frame.
Qed.

Lemma run_ops_keeps_frame ops s :
  is_Some (last_frame (sys_shared s)) ->
  is_Some (last_frame (sys_shared (run_ops ops s))).
Proof.
  unfold run_ops. revert s.
  induction ops as [|op ops IH]; intros s Hsome; simpl; [exact Hsome|].
  apply IH. now apply apply_op_keeps_frame.
Qed.

(** C9. Once a frame has been published, no operation of the program (a
    loop iteration on any input, a reload, a stats or stream read, the
    shutdown) empties the latest-frame cell: after any sequence of them a
    viewer's read finds a frame, and its generator step does not pause but
    yields the chunk of that frame whenever the encoder returns one. *)
Theorem published_frame_stays (ops : list Op) (s : Sys) :
  is_Some (last_frame (sys_shared s)) ->
  exists frame,
    read_frame (sys_shared (run_ops ops s)) = Some frame /\
    pauses (mjpeg_step (sys_shared (run_ops ops s))) = [] /\
    (forall buffer, imencode frame JPEG_QUALITY = (true, buffer) ->
       mjpeg_step (sys_shared (run_ops ops s)) = [GYield (chunk_of buffer)]).
Proof.
  intros Hsome.
  destruct (run_ops_keeps_frame ops s Hsome) as [frame Hf].
  exists frame. unfold mjpeg_step, read_frame. rewrite Hf.
  split; [reflexivity|]. split.
  - destruct (imencode frame JPEG_QUALITY) as [[|] buf]; reflexivity.
  - intros buffer ->. reflexivity.
Qed.

End FrameFacts.

Lemma published_frame_stays_witness :
  exists frame,
    read_frame (sys_shared (run_ops Toy.outage_ops Toy.sys1)) = Some frame /\
    pauses (mjpeg_step (sys_shared (run_ops Toy.outage_ops Toy.sys1))) = [] /\
    (forall buffer, imencode frame JPEG_QUALITY = (true, buffer) ->
       mjpeg_step (sys_shared (run_ops Toy.outage_ops Toy.sys1))
         = [GYield (chunk_of buffer)]).
Proof.
  apply (published_frame_stays Toy.outage_ops Toy.sys1).
  exists (Toy.Raw 7). reflexivity.
Defined.

(** ** The streaming publisher *)

Section PublisherFacts.
Context `{cv : OpenCV}.

Lemma chunks_app e1 e2 : chunks (e1 ++ e2) = chunks e1 ++ chunks e2.
Proof. unfold chunks. apply flat_map_app. Qed.

Lemma pauses_app e1 e2 : pauses (e1 ++ e2) = pauses e1 ++ pauses e2.
Proof. unfold pauses. apply flat_map_app. Qed.

(** C8, amended. Over the reads a generator makes before the stop signal,
    it pauses (0.02 s) exactly on the reads that find the Shared Result
    Store without any frame; every read that finds a frame yields, when
    the encoder succeeds, one chunk encoded at that moment from the frame
    found, with no pause before the next read, whether or not that frame
    was sent before. *)
Theorem generator_pauses_and_chunks (polls : list (bool * Shared)) :
  pauses (mjpeg_generator polls)
    = flat_map (fun sh => match read_frame sh with
                          | None => [0.02%float]
                          | Some _ => []
                          end) (before_stop polls) /\
  chunks (mjpeg_generator polls)
    = flat_map (fun sh => match read_frame sh with
                          | None => []
                          | Some frame =>
                              if fst (imencode frame JPEG_QUALITY)
                              then [chunk_of (snd (imencode frame JPEG_QUALITY))]
                              else []
                          end) (before_stop polls).
Proof.
  induction polls as [|[stop sh] rest [IHp IHc]]; simpl; [split; reflexivity|].
  destruct stop; simpl; [split; reflexivity|].
  rewrite pauses_app, chunks_app, IHp, IHc.
  unfold mjpeg_step.
  destruct (read_frame sh) as [frame|]; simpl; [|split; reflexivity].
  destruct (imencode frame JPEG_QUALITY) as [[|] buffer]; simpl; split; reflexivity.
Qed.

End PublisherFacts.

(** C8, as the specification has it, fails: on two successive reads
    between which no new frame was published, the generator yields the
    same chunk twice and does not pause. *)
Lemma stale_frame_resent_without_pause :
  pauses (mjpeg_generator Toy.stale_polls) = [] /\
  exists chunk,
    mjpeg_generator Toy.stale_polls = [GYield chunk; GYield chunk].
Proof.
  split; [vm_compute; reflexivity|].
  eexists. vm_compute. reflexivity.
Qed.

(** ** Hot reload *)

Section ReloadFacts.
Context `{cv : OpenCV}.

Lemma replace_slot1_entry2 new r :
  entry2 (fst (replace_slot1 new r)) = entry2 r.
Proof.
  unfold replace_slot1. destruct new as [img|]; [|reflexivity].
  simpl. destruct (detectAndCompute img); reflexivity.
Qed.

Lemma replace_slot2_entry1 new r :
  entry1 (fst (replace_slot2 new r)) = entry1 r.
Proof.
  unfold replace_slot2. destruct new as [img|]; [|reflexivity].
  simpl. destruct (detectAndCompute img); reflexivity.
Qed.

(** What [replace_slot1] does when it does not raise. *)
Lemma replace_slot1_ok new r r' :
  replace_slot1 new r = (r', None) ->
  match new with
  | Some img => exists kd, detectAndCompute img = Ok kd /\ entry1 r' = loaded_entry img kd
  | None => r' = r
  end.
Proof.
  unfold replace_slot1. destruct new as [img|]; [|now intros [= <-]].
  simpl. destruct (detectAndCompute img) as [kd|]; [|discriminate].
  intros [= <-]. exists kd. split; reflexivity.
Qed.

Lemma replace_slot2_ok new r r' :
  replace_slot2 new r = (r', None) ->
  match new with
  | Some img => exists kd, detectAndCompute img = Ok kd /\ entry2 r' = loaded_entry img kd
  | None => r' = r
  end.
Proof.
  unfold replace_slot2. destruct new as [img|]; [|now intros [= <-]].
  simpl. destruct (detectAndCompute img) as [kd|]; [|discriminate].
  intros [= <-]. exists kd. split; reflexivity.
Qed.

Lemma replace_slot1_raise new r r' e :
  replace_slot1 new r = (r', Some e) ->
  exists img, new = Some img /\ detectAndCompute img = Raise e.
Proof.
  unfold replace_slot1. destruct new as [img|]; [|discriminate].
  simpl. destruct (detectAndCompute img) as [kd|e'] eqn:Hd; [discriminate|].
  intros [= _ <-]. eauto.
Qed.

Lemma replace_slot2_raise new r r' e :
  replace_slot2 new r = (r', Some e) ->
  exists img, new = Some img /\ detectAndCompute img = Raise e.
Proof.
  unfold replace_slot2. destruct new as [img|]; [|discriminate].
  simpl. destruct (detectAndCompute img) as [kd|e'] eqn:Hd; [discriminate|].
  intros [= _ <-]. eauto.
Qed.

(** Lines 282-292 on the two selected images. *)
Lemma apply_selected_contract (new1 new2 : option Image) (io : list IoEvent)
    (r : Registry) :
  let r' := fst (fst (apply_selected new1 new2 io r)) in
  let resp := snd (fst (apply_selected new1 new2 io r)) in
  (client_error resp = true <-> new1 = None /\ new2 = None) /\
  (client_error resp = true -> r' = r) /\
  ((is_Some new1 \/ is_Some new2) ->
   (forall img, new1 = Some img \/ new2 = Some img ->
                exists kd, detectAndCompute img = Ok kd) ->
   resp = Status_ok) /\
  (resp = Status_ok ->
     (is_Some new1 \/ is_Some new2) /\
     match new1 with
     | Some img =>
         exists kd, detectAndCompute img = Ok kd /\ entry1 r' = loaded_entry img kd
     | None => entry1 r' = entry1 r
     end /\
     match new2 with
     | Some img =>
         exists kd, detectAndCompute img = Ok kd /\ entry2 r' = loaded_entry img kd
     | None => entry2 r' = entry2 r
     end).
Proof.
  unfold apply_selected. simpl.
  assert (Hgen :
    forall P : Registry * Response * list IoEvent -> Prop,
      (new1 = None -> new2 = None ->
       P (r, HTTPException 400 "No se envió ningún logo válido", io)) ->
      ((is_Some new1 \/ is_Some new2) ->
       P (match replace_slot1 new1 r with
          | (r1, Some e) => (r1, Unhandled e, io)
          | (r1, None) =>
              match replace_slot2 new2 r1 with
              | (r2, Some e) => (r2, Unhandled e, io)
              | (r2, None) => (r2, Status_ok, io)
              end
          end)) ->
      P (match new1, new2 with
         | None, None => (r, HTTPException 400 "No se envió ningún logo válido", io)
         | _, _ =>
             match replace_slot1 new1 r with
             | (r1, Some e) => (r1, Unhandled e, io)
             | (r1, None) =>
                 match replace_slot2 new2 r1 with
                 | (r2, Some e) => (r2, Unhandled e, io)
                 | (r2, None) => (r2, Status_ok, io)
                 end
             end
         end)).
  { intros P H400 Hgo. destruct new1 as [i1|], new2 as [i2|]; eauto. }
  apply Hgen; clear Hgen.
  - intros -> ->. simpl.
    split; [tauto|]. split; [trivial|].
    split; [|discriminate].
    intros [[? ?]|[? ?]]; discriminate.
  - intros Hsome.
    assert (Hnot : ~ (new1 = None /\ new2 = None)).
    { intros [-> ->]. destruct Hsome as [[? ?]|[? ?]]; discriminate. }
    destruct (replace_slot1 new1 r) as [r1 [e1|]] eqn:H1; simpl.
    { split; [split; [discriminate | tauto]|].
      split; [discriminate|]. split; [|discriminate].
      intros _ Hext.
      destruct (replace_slot1_raise _ _ _ _ H1) as (img & -> & Hd).
      destruct (Hext img) as [kd Hkd]; [now left | congruence]. }
    destruct (replace_slot2 new2 r1) as [r2 [e2|]] eqn:H2; simpl.
    { split; [split; [discriminate | tauto]|].
      split; [discriminate|]. split; [|discriminate].
      intros _ Hext.
      destruct (replace_slot2_raise _ _ _ _ H2) as (img & -> & Hd).
      destruct (Hext img) as [kd Hkd]; [now right | congruence]. }
    split; [split; [discriminate | tauto]|].
    split; [discriminate|].
    split; [reflexivity|].
    intros _. split; [exact Hsome|].
    pose proof (replace_slot1_ok _ _ _ H1) as Hs1.
    pose proof (replace_slot2_ok _ _ _ H2) as Hs2.
    pose proof (replace_slot2_entry1 new2 r1) as He1.
    pose proof (replace_slot1_entry2 new1 r) as He2.
    rewrite H2 in He1. rewrite H1 in He2. simpl in He1, He2.
    split.
    + rewrite He1. destruct new1 as [i1|]; [exact Hs1 | now subst].
    + destruct new2 as [i2|].
      * exact Hs2.
      * subst r2. exact He2.
Qed.

Lemma apply_selected_io new1 new2 io r :
  snd (apply_selected new1 new2 io r) = io.
Proof.
  unfold apply_selected.
  destruct new1 as [i1|], new2 as [i2|]; simpl; trivial;
    repeat (match goal with
            | |- context [match ?x with _ => _ end] => destruct x; simpl
            end); reflexivity.
Qed.

(** C4, amended. The hot reload answers with a client error (400) if and
    only if the input selected for each slot -- the upload when one is
    given, otherwise the non-empty path -- is decoded without an exception
    and none of the two gives an image, and then the registry is left as it
    was; when both are decoded without an exception, one at least gives an
    image and feature extraction returns on every decoded image, it answers
    with success; and whenever it answers with success exactly the slots
    whose selected input decoded are replaced, each by its new image with
    the features extracted from it, and the other slots keep their
    entries; when the decoder raises on an upload (as [cv2.imdecode] does
    on an empty one) the request fails with that exception, which is
    neither answer, and the registry is left as it was. *)
Theorem reload_logos_contract (rq : ReloadRequest) (r : Registry) :
  let sel1 := select_input (logo1_file rq) (logo1_path rq) in
  let sel2 := select_input (logo2_file rq) (logo2_path rq) in
  let r' := fst (fst (reload_logos rq r)) in
  let resp := snd (fst (reload_logos rq r)) in
  (client_error resp = true <->
   exists io1 io2, sel1 = Ok (None, io1) /\ sel2 = Ok (None, io2)) /\
  (client_error resp = true -> r' = r) /\
  (forall new_logo1 io1 new_logo2 io2,
     sel1 = Ok (new_logo1, io1) -> sel2 = Ok (new_logo2, io2) ->
     is_Some new_logo1 \/ is_Some new_logo2 ->
     (forall img, new_logo1 = Some img \/ new_logo2 = Some img ->
                  exists kd, detectAndCompute img = Ok kd) ->
     resp = Status_ok) /\
  (resp = Status_ok ->
   exists new_logo1 io1 new_logo2 io2,
     sel1 = Ok (new_logo1, io1) /\ sel2 = Ok (new_logo2, io2) /\
     (is_Some new_logo1 \/ is_Some new_logo2) /\
     match new_logo1 with
     | Some img =>
         exists kd, detectAndCompute img = Ok kd /\ entry1 r' = loaded_entry img kd
     | None => entry1 r' = entry1 r
     end /\
     match new_logo2 with
     | Some img =>
         exists kd, detectAndCompute img = Ok kd /\ entry2 r' = loaded_entry img kd
     | None => entry2 r' = entry2 r
     end) /\
  (forall e, sel1 = Raise e \/ ((exists x, sel1 = Ok x) /\ sel2 = Raise e) ->
             resp = Unhandled e /\ r' = r).
Proof.
  unfold reload_logos. simpl.
  destruct (select_input (logo1_file rq) (logo1_path rq)) as [[new1 io1]|e1]; simpl.
  2:{ split; [split; [discriminate | intros (? & ? & ? & _); discriminate]|].
      split; [discriminate|].
      split; [intros ? ? ? ? ?; discriminate|].
      split; [discriminate|].
      intros e [[= <-]|[[x Hx] _]]; [auto | discriminate]. }
  destruct (select_input (logo2_file rq) (logo2_path rq)) as [[new2 io2]|e2]; simpl.
  2:{ split; [split; [discriminate | intros (? & ? & _ & ?); discriminate]|].
      split; [discriminate|].
      split; [intros ? ? ? ? _ ?; discriminate|].
      split; [discriminate|].
      intros e [?|[_ [= <-]]]; [discriminate | auto]. }
  pose proof (apply_selected_contract new1 new2 (io1 ++ io2) r) as (H1 & H2 & H3 & H4).
  split; [|split; [exact H2|split; [|split]]].
  - rewrite H1. split.
    + intros [-> ->]. eauto.
    + intros (? & ? & [= -> _] & [= -> _]). auto.
  - intros n1 i1 n2 i2 [= <- _] [= <- _]. exact H3.
  - intros Hok. destruct (H4 Hok) as (Hs & He1 & He2).
    exists new1, io1, new2, io2. auto.
  - intros e [?|[_ ?]]; discriminate.
Qed.

(** C10. For each slot an uploaded file is the selected input whatever
    path comes with it: the image is what the uploaded bytes decode to
    (nothing, if they do not decode; the decoder's exception, if it
    raises), no file is read for that slot, and the handler's result --
    registry, response and files read -- is the one it gives without the
    path; the only files it reads are those of the other slot, and it reads
    none when the upload of slot 1 makes the decoder raise, which ends the
    handler on line 271. *)
Theorem upload_shadows_path (data : list Byte.byte) (path : option string)
    (other_file : option (list Byte.byte)) (other_path : option string)
    (r : Registry) :
  select_input (Some data) path
    = match imdecode data with
      | Ok img => Ok (img, [])
      | Raise e => Raise e
      end /\
  reload_logos (mkReloadRequest (Some data) other_file path other_path) r
    = reload_logos (mkReloadRequest (Some data) other_file None other_path) r /\
  snd (reload_logos (mkReloadRequest (Some data) other_file path other_path) r)
    = match imdecode data with
      | Ok _ => reads_of (select_input other_file other_path)
      | Raise _ => []
      end /\
  reload_logos (mkReloadRequest other_file (Some data) other_path path) r
    = reload_logos (mkReloadRequest other_file (Some data) other_path None) r /\
  snd (reload_logos (mkReloadRequest other_file (Some data) other_path path) r)
    = reads_of (select_input other_file other_path).
Proof.
  split; [reflexivity|].
  split; [reflexivity|].
  split.
  - unfold reload_logos. simpl.
    destruct (imdecode data) as [img|e]; simpl; [|reflexivity].
    destruct (select_input other_file other_path) as [[new2 io2]|e2]; simpl;
      [|reflexivity].
    apply apply_selected_io.
  - split; [reflexivity|].
    unfold reload_logos. simpl.
    destruct (select_input other_file other_path) as [[new1 io1]|e1]; simpl;
      [|reflexivity].
    destruct (imdecode data) as [img|e]; simpl; [|reflexivity].
    rewrite apply_selected_io. apply app_nil_r.
Qed.

End ReloadFacts.

(** C4, as the specification has it, fails: the request supplies a path
    that decodes to a valid image, but an undecodable upload for the same
    slot takes its place, and the handler answers 400. *)
Lemma shadowed_valid_path_rejected :
  @supplied_images Toy.toy_cv Toy.shadow_request = [Toy.Raw 1] /\
  reload_logos Toy.shadow_request Toy.reg0
    = (Toy.reg0, HTTPException 400 "No se envió ningún logo válido", []) /\
  ~ (client_error (snd (fst (reload_logos Toy.shadow_request Toy.reg0))) = true
     <-> supplied_images Toy.shadow_request = []).
Proof.
  split; [reflexivity|].
  split; [reflexivity|].
  intros [H _]. specialize (H eq_refl). discriminate H.
Qed.

(** Scenario 3 of the specification: slot 1 gets a payload that decodes,
    slot 2 one that does not; the answer is a success, the first entry is
    the new logo with its features and the second entry is untouched. *)
Example reload_valid_subset :
  let rq := mkReloadRequest (Some [Byte.x02]) (Some [Byte.x07; Byte.x07]) None None in
  snd (fst (reload_logos rq Toy.reg0)) = Status_ok /\
  entry1 (fst (fst (reload_logos rq Toy.reg0)))
    = (Toy.Raw 2, 2, Some [[1%float]; [10%float]]) /\
  entry2 (fst (fst (reload_logos rq Toy.reg0))) = entry2 Toy.reg0.
Proof. repeat split. Qed.

(** An empty upload makes the decoder raise: the request fails with that
    exception, the path sent for the other slot is not read and the
    registry is left as it was. *)
Example reload_empty_upload :
  reload_logos ToyRuns.empty_upload_request Toy.reg0
    = (Toy.reg0, Unhandled (cv2_error "imdecode: empty buffer"), []).
Proof. reflexivity. Qed.

(** ** The reload handler against the loop thread *)

Section RaceFacts.
Context `{cv : OpenCV}.


(** Run on their own, the handler's statements do what lines 285-290 do. *)
Lemma exec_reload_stmts new_logo1 new_logo2 r :
  let c := exec (reload_stmts new_logo1 new_logo2) r in
  match replace_slot1 new_logo1 r with
  | (r1, Some e) => c_registry c = r1 /\ c_reload_exn c = Some e
  | (r1, None) => (c_registry c, c_reload_exn c) = replace_slot2 new_logo2 r1
  end.
Proof.
  unfold reload_stmts, slot_stmts, replace_slot1, replace_slot2, exec.
  destruct new_logo1 as [i1|], new_logo2 as [i2|]; simpl;
    unfold handler_stmt, feat_stmt; simpl;
    repeat (match goal with
            | |- context [detectAndCompute ?i] =>
                destruct (detectAndCompute i); simpl
            end); auto.
Qed.

(** Run on their own, the loop's reads see one registry. *)
Lemma exec_cycle_reads r :
  seen_entry1 (c_reads (exec cycle_reads r)) = Some (entry1 r).
Proof. reflexivity. Qed.

(** The loop's reads scheduled between lines 286 and 287: the image is the
    new one, the keypoints and descriptors are the old ones. *)
Lemma reads_between_assignments img r :
  interleave (reload_stmts (Some img) None) cycle_reads
    [SetLogo1Img img; ReadDesc1; ReadDesc2; ReadDraw1; ReadDraw2; SetFeat1] /\
  seen_entry1
    (c_reads (exec [SetLogo1Img img; ReadDesc1; ReadDesc2; ReadDraw1; ReadDraw2;
                    SetFeat1] r))
    = Some (img, kp1 r, desc1 r).
Proof.
  split.
  - unfold reload_stmts, slot_stmts, cycle_reads. simpl.
    apply interleave_l. do 4 apply interleave_r.
    apply interleave_l. apply interleave_nil.
  - unfold exec. simpl. unfold handler_stmt, feat_stmt. simpl.
    destruct (detectAndCompute img); reflexivity.
Qed.

End RaceFacts.

(** C6 on the code: the registry globals are assigned one by one and read
    without a lock.  With the loop's reads scheduled between the handler's
    assignment of [logo1_img] (line 286) and that of [kp1, desc1] (line 287)
    the loop puts together the new image with the old keypoints and
    descriptors, which is neither the entry before the reload nor the entry
    after it. *)
Theorem torn_entry_observed :
  interleave (@reload_stmts Toy.toy_cv (Some (Toy.Raw 2)) None) cycle_reads Toy.torn_schedule /\
  entry1 Toy.reg0 = (Toy.Raw 1, 3, Some [[0%float]; [0%float]; [0%float]]) /\
  entry1 (c_registry (exec (@reload_stmts Toy.toy_cv (Some (Toy.Raw 2)) None) Toy.reg0))
    = (Toy.Raw 2, 2, Some [[1%float]; [10%float]]) /\
  seen_entry1 (c_reads (exec Toy.torn_schedule Toy.reg0))
    = Some (Toy.Raw 2, 3, Some [[0%float]; [0%float]; [0%float]]) /\
  seen_entry1 (c_reads (exec Toy.torn_schedule Toy.reg0))
    <> Some (entry1 Toy.reg0) /\
  seen_entry1 (c_reads (exec Toy.torn_schedule Toy.reg0))
    <> Some (entry1 (c_registry (exec (@reload_stmts Toy.toy_cv (Some (Toy.Raw 2)) None) Toy.reg0))).
Proof.
  split; [apply (@reads_between_assignments Toy.toy_cv (Toy.Raw 2) Toy.reg0)|].
  split; [reflexivity|].
  split; [reflexivity|].
  split; [reflexivity|].
  split; vm_compute; intros [=].
Qed.

(** * Further properties of the code *)

(** ** The filter of lines 136 and 139 *)

Section FilterFacts.

(** The good matches are exactly the first entries of the two-entry result
    sets whose first distance is below [RATIO_THRESH] times the second;
    result sets of any other length contribute nothing. *)
Theorem good_matches_In (matches : list (list DMatch)) (g : DMatch) :
  In g (good_matches matches) <->
  exists second,
    In [g; second] matches /\
    (distance g <? RATIO_THRESH * distance second)%float = true.
Proof.
  unfold good_matches. rewrite in_flat_map. split.
  - intros (m & Hm & Hg). apply filter_In in Hm as [Hin Hrt].
    apply ratio_test_true in Hrt as (a & b & -> & Hd).
    simpl in Hg. destruct Hg as [<-|[]]. eauto.
  - intros (b & Hin & Hd). exists [g; b]. split.
    + apply filter_In. split; [exact Hin|]. apply ratio_test_true. eauto.
    + simpl. now left.
Qed.

(** The filter works result set by result set: it keeps their order, gives
    one good match for each result set that passes the test, and the good
    matches of a concatenation are those of its parts. *)
Theorem good_matches_app (ms1 ms2 : list (list DMatch)) :
  good_matches (ms1 ++ ms2) = good_matches ms1 ++ good_matches ms2 /\
  length (good_matches ms1) = length (List.filter ratio_test ms1).
Proof.
  split.
  - unfold good_matches. now rewrite List.filter_app, flat_map_app.
  - unfold good_matches. induction ms1 as [|m r IH]; simpl; [reflexivity|].
    destruct (ratio_test m) eqn:Hrt; [|exact IH].
    apply ratio_test_true in Hrt as (a & b & -> & _). simpl. now rewrite IH.
Qed.

End FilterFacts.

(** ** One iteration of the loop, from outside *)

Section CycleFacts.
Context `{cv : OpenCV}.

Lemma match_and_publish_inv env frame kp d sh sh' :
  match_and_publish env frame kp d sh = Ok sh' ->
  exists matches1 matches2 out_frame,
    knnMatch (desc1 (registry sh)) d 2 = Ok matches1 /\
    knnMatch (desc2 (registry sh)) d 2 = Ok matches2 /\
    registry sh' = registry sh /\
    last_frame sh' = Some out_frame /\
    shared_stats sh' =
      <["mem_mb" := PyFloat (mem_stat env)]>
      (<["last_update" := PyFloat (clock_publish env)]>
      (<["logo2_matches" := PyInt (Z.of_nat (length (good_matches matches2)))]>
      (<["logo1_matches" := PyInt (Z.of_nat (length (good_matches matches1)))]>
         (shared_stats sh)))).
Proof.
  unfold match_and_publish.
  destruct (knnMatch (desc1 (registry sh)) d 2) as [m1|]; [|discriminate].
  destruct (knnMatch (desc2 (registry sh)) d 2) as [m2|]; [|discriminate].
  simpl.
  destruct (drawMatches (logo1_img _) _ _ _ _) as [i1|]; [|discriminate].
  destruct (drawMatches (logo2_img _) _ _ _ _) as [i2|]; [|discriminate].
  simpl. intros [= <-]. exists m1, m2. eexists. repeat split.
Qed.

(** What an iteration that ends normally has done. *)
Lemma cycle_ok_inv env sh lc sh' lc' ev :
  cycle env sh lc = Ok (sh', lc', ev) ->
  (source_absent env = true /\ sh' = sh /\ lc' = lc /\ ev = map Sleep (backoff env))
  \/
  (source_absent env = false /\ ev = [] /\ backoff env = [] /\
   exists sh1,
     (sh1 = sh \/
      exists frame kp d, match_and_publish env frame kp d sh = Ok sh1) /\
     rate_accounting env sh1 lc = (sh', lc')).
Proof.
  unfold cycle, source_absent, backoff.
  destruct (cap_opened env); simpl; [|intros [= <- <- <-]; left; auto].
  destruct (cap_read env) as [[|] [frame|]];
    try (intros [= <- <- <-]; left; auto).
  destruct (detectAndCompute _) as [[kp [d|]]|]; simpl; try discriminate.
  - destruct (match_and_publish env _ kp d sh) as [sh1|] eqn:Hm;
      simpl; [|discriminate].
    destruct (rate_accounting env sh1 lc) as [sh2 lc2] eqn:Hra.
    intros [= <- <- <-]. right. repeat split. exists sh1. split; [|exact Hra].
    right. eauto.
  - destruct (rate_accounting env sh lc) as [sh2 lc2] eqn:Hra.
    intros [= <- <- <-]. right. repeat split. exists sh. split; [|exact Hra].
    now left.
Qed.

Lemma rate_accounting_counter env sh lc :
  (0 <= fps_counter lc)%Z ->
  (0 <= fps_counter (snd (rate_accounting env sh lc)) <= fps_counter lc + 1)%Z.
Proof.
  unfold rate_accounting.
  destruct (1 <=? clock_now env - last_fps_time lc)%float; simpl; lia.
Qed.

Lemma cycle_registry env sh lc sh' lc' ev :
  cycle env sh lc = Ok (sh', lc', ev) -> registry sh' = registry sh.
Proof.
  intros Hc. apply cycle_ok_inv in Hc as [(_ & -> & _)|(_ & _ & _ & sh1 & Hsh1 & Hra)];
    [reflexivity|].
  pose proof (rate_accounting_keeps env sh1 lc) as (_ & Hr & _).
  rewrite Hra in Hr. simpl in Hr. rewrite Hr.
  destruct Hsh1 as [->|(frame & kp & d & Hm)]; [reflexivity|].
  apply match_and_publish_inv in Hm as (? & ? & ? & _ & _ & Hreg & _).
  exact Hreg.
Qed.

Lemma cycle_counter env sh lc sh' lc' ev :
  cycle env sh lc = Ok (sh', lc', ev) ->
  (0 <= fps_counter lc)%Z ->
  (0 <= fps_counter lc' <= fps_counter lc + 1)%Z.
Proof.
  intros Hc Hpos.
  apply cycle_ok_inv in Hc as [(_ & _ & -> & _)|(_ & _ & _ & sh1 & _ & Hra)]; [lia|].
  pose proof (rate_accounting_counter env sh1 lc Hpos) as H.
  now rewrite Hra in H.
Qed.

End CycleFacts.

(** ** Runs of the loop *)

Section LoopRunFacts.
Context `{cv : OpenCV}.

(** The loop only reads the registry: after any run, crashed or not, and
    in every state the run went through, the six logo globals are those it
    started with. *)
Theorem loop_keeps_registry (envs : list (bool * CycleEnv)) (sh : Shared)
    (lc : Locals) :
  registry (run_shared (loop envs sh lc)) = registry sh /\
  Forall (fun s => registry s = registry sh) (loop_states envs sh lc).
Proof.
  revert sh lc. induction envs as [|[stop env] rest IH]; intros sh lc; simpl.
  - split; [reflexivity | constructor].
  - destruct stop; simpl; [split; [reflexivity | constructor]|].
    destruct (cycle env sh lc) as [[[sh' lc'] ev]|] eqn:Hc; simpl.
    + pose proof (cycle_registry _ _ _ _ _ _ Hc) as Hr.
      destruct (IH sh' lc') as [IH1 IH2]. rewrite <- Hr.
      split; [exact IH1|]. constructor; [reflexivity | exact IH2].
    + split; [reflexivity | constructor].
Qed.

Lemma loop_counter envs sh lc :
  (0 <= fps_counter lc)%Z ->
  (0 <= fps_counter (run_locals (loop envs sh lc))
     <= fps_counter lc + Z.of_nat (run_cycles (loop envs sh lc)))%Z.
Proof.
  revert sh lc. induction envs as [|[stop env] rest IH]; intros sh lc Hpos; simpl.
  - lia.
  - destruct stop; simpl; [lia|].
    destruct (cycle env sh lc) as [[[sh' lc'] ev]|] eqn:Hc; simpl; [|lia].
    pose proof (cycle_counter _ _ _ _ _ _ Hc Hpos) as Hc'.
    specialize (IH sh' lc' (proj1 Hc')). lia.
Qed.

(** The frame counter of the FPS accounting is never negative and never
    exceeds the number of iterations the run has completed. *)
Theorem fps_counter_bounds (t0 : float) (envs : list (bool * CycleEnv))
    (sh : Shared) :
  (0 <= fps_counter (run_locals (processing_loop t0 envs sh))
     <= Z.of_nat (run_cycles (processing_loop t0 envs sh)))%Z.
Proof.
  unfold processing_loop.
  pose proof (loop_counter envs sh (mkLocals 0 t0)) as H. simpl in H.
  apply H. lia.
Qed.

(** The events of a run are the pauses of its iterations, followed by one
    [cap.release()] exactly when the run ended by the stop signal and there
    was a capture to release ([cap is not None] on line 179): a run that an
    exception ended releases nothing. *)
Theorem release_only_on_stop (envs : list (bool * CycleEnv)) (sh : Shared)
    (lc : Locals) :
  run_events (loop envs sh lc)
    = map Sleep (sleeps (run_events (loop envs sh lc)))
      ++ match run_outcome (loop envs sh lc),
               nth_error envs (run_cycles (loop envs sh lc)) with
         | Stopped, Some (_, env) =>
             match cap env with
             | CapNone => []
             | _ => [Release]
             end
         | _, _ => []
         end.
Proof.
  revert sh lc. induction envs as [|[stop env] rest IH]; intros sh lc; simpl.
  - reflexivity.
  - destruct stop; simpl; [destruct (cap env); reflexivity|].
    destruct (cycle env sh lc) as [[[sh' lc'] ev]|] eqn:Hc; simpl; [|reflexivity].
    unfold sleeps in *. rewrite flat_map_app, map_app, <- app_assoc.
    rewrite <- IH. f_equal.
    apply cycle_ok_inv in Hc as [(_ & _ & _ & ->)|(_ & -> & _)]; [|reflexivity].
    induction (backoff env) as [|s r IHb]; simpl; [reflexivity|].
    now rewrite <- IHb.
Qed.

(** The loop backs off on every iteration that gets no frame, 0.1 s when
    the capture is not open and 0.02 s when the read fails, and on no
    other: the pauses of a run are those of the iterations it completed. *)
Theorem sleeps_are_backoffs (envs : list (bool * CycleEnv)) (sh : Shared)
    (lc : Locals) :
  sleeps (run_events (loop envs sh lc))
    = flat_map (fun e => backoff (snd e))
               (firstn (run_cycles (loop envs sh lc)) envs).
Proof.
  revert sh lc. induction envs as [|[stop env] rest IH]; intros sh lc; simpl.
  - reflexivity.
  - destruct stop; simpl; [destruct (cap env); reflexivity|].
    destruct (cycle env sh lc) as [[[sh' lc'] ev]|] eqn:Hc; simpl; [|reflexivity].
    unfold sleeps in *. rewrite flat_map_app, IH. f_equal.
    apply cycle_ok_inv in Hc as [(_ & _ & _ & ->)|(_ & -> & -> & _)]; [|reflexivity].
    induction (backoff env) as [|s r IHb]; simpl; [reflexivity|].
    now rewrite IHb.
Qed.

(** Runs compose: a run over [envs1 ++ envs2] is the run over [envs1]
    when that one ended (by the stop signal or an exception), and otherwise
    that run followed by the run over [envs2] from the state it reached. *)
Theorem loop_app (envs1 envs2 : list (bool * CycleEnv)) (sh : Shared)
    (lc : Locals) :
  loop (envs1 ++ envs2) sh lc
    = match run_outcome (loop envs1 sh lc) with
      | Running =>
          then_run (loop envs1 sh lc)
                   (loop envs2 (run_shared (loop envs1 sh lc))
                               (run_locals (loop envs1 sh lc)))
      | _ => loop envs1 sh lc
      end.
Proof.
  revert sh lc. induction envs1 as [|[stop env] rest IH]; intros sh lc; simpl.
  - unfold then_run. simpl. now destruct (loop envs2 sh lc).
  - destruct stop; simpl; [reflexivity|].
    destruct (cycle env sh lc) as [[[sh' lc'] ev]|] eqn:Hc; simpl; [|reflexivity].
    rewrite IH.
    destruct (run_outcome (loop rest sh' lc')) eqn:Ho; simpl;
      rewrite ?Ho; try reflexivity.
    unfold then_run. simpl. now rewrite <- List.app_assoc.
Qed.

End LoopRunFacts.

(** A run the stop signal ends while [cap] is still [None] releases
    nothing; with a capture, open or not, it ends by releasing it. *)
Example release_needs_a_capture :
  run_events (loop ToyRuns.stop_without_cap Toy.shared0 Toy.locals0)
    = [Sleep 0.1%float] /\
  run_events (loop ToyRuns.stop_with_cap Toy.shared0 Toy.locals0)
    = [Sleep 0.02%float; Release] /\
  run_events (loop [(true, Toy.env_closed)] Toy.shared0 Toy.locals0) = [Release].
Proof. repeat split. Qed.

(** ** The statistics dictionary *)

Section StatsFacts.
Context `{cv : OpenCV}.

Lemma stats_shape_initial : stats_shape initial_stats.
Proof.
  unfold stats_shape, is_float, is_count.
  repeat split; try (eexists; reflexivity).
  exists 0%Z. split; [reflexivity | lia].
  exists 0%Z. split; [reflexivity | lia].
Qed.

Lemma stats_shape_set_float key f st :
  stats_shape st ->
  In key ["fps"; "last_update"; "mem_mb"] ->
  stats_shape (<[key := PyFloat f]> st).
Proof.
  unfold stats_shape, is_float, is_count.
  intros (Hdom & [f1 H1] & (n2 & H2 & Hn2) & (n3 & H3 & Hn3) & [f4 H4] & [f5 H5]) Hkey.
  simpl in Hkey.
  destruct Hkey as [<-|[<-|[<-|[]]]];
    (split; [rewrite dom_insert_lookup_L; [exact Hdom | eauto]|]);
    rewrite ?lookup_insert_eq, ?lookup_insert_ne by discriminate;
    repeat split; eauto.
Qed.

Lemma stats_shape_set_count key n st :
  stats_shape st ->
  (0 <= n)%Z ->
  In key ["logo1_matches"; "logo2_matches"] ->
  stats_shape (<[key := PyInt n]> st).
Proof.
  unfold stats_shape, is_float, is_count.
  intros (Hdom & [f1 H1] & (n2 & H2 & Hn2) & (n3 & H3 & Hn3) & [f4 H4] & [f5 H5])
         Hn Hkey.
  simpl in Hkey.
  destruct Hkey as [<-|[<-|[]]];
    (split; [rewrite dom_insert_lookup_L; [exact Hdom | eauto]|]);
    rewrite ?lookup_insert_eq, ?lookup_insert_ne by discriminate;
    repeat split; eauto.
Qed.

Lemma match_and_publish_shape env frame kp d sh sh' :
  match_and_publish env frame kp d sh = Ok sh' ->
  stats_shape (shared_stats sh) -> stats_shape (shared_stats sh').
Proof.
  intros Hm Hs.
  apply match_and_publish_inv in Hm as (m1 & m2 & out & _ & _ & _ & _ & ->).
  apply stats_shape_set_float; [|simpl; tauto].
  apply stats_shape_set_float; [|simpl; tauto].
  apply stats_shape_set_count; [|lia|simpl; tauto].
  apply stats_shape_set_count; [exact Hs|lia|simpl; tauto].
Qed.

Lemma rate_accounting_shape env sh lc :
  stats_shape (shared_stats sh) ->
  stats_shape (shared_stats (fst (rate_accounting env sh lc))).
Proof.
  intros Hs. unfold rate_accounting.
  destruct (1 <=? clock_now env - last_fps_time lc)%float; simpl; [|exact Hs].
  apply stats_shape_set_float; [exact Hs | simpl; tauto].
Qed.

Lemma cycle_shape env sh lc sh' lc' ev :
  cycle env sh lc = Ok (sh', lc', ev) ->
  stats_shape (shared_stats sh) -> stats_shape (shared_stats sh').
Proof.
  intros Hc Hs.
  apply cycle_ok_inv in Hc as [(_ & -> & _)|(_ & _ & _ & sh1 & Hsh1 & Hra)];
    [exact Hs|].
  pose proof (rate_accounting_shape env sh1 lc) as H. rewrite Hra in H. simpl in H.
  apply H. destruct Hsh1 as [->|(frame & kp & d & Hm)]; [exact Hs|].
  eapply match_and_publish_shape; eassumption.
Qed.

Lemma thread_step_shape env stop sh th :
  stats_shape (shared_stats sh) ->
  stats_shape (shared_stats (fst (thread_step env stop sh th))).
Proof.
  intros Hs. unfold thread_step.
  destruct (th_state th); trivial.
  destruct stop; trivial.
  destruct (cycle env sh (th_locals th)) as [[[sh' lc'] ev]|] eqn:Hc; simpl; trivial.
  eapply cycle_shape; eassumption.
Qed.

Lemma restart_shared_stats opened t0 s :
  shared_stats (sys_shared (restart opened t0 s)) = shared_stats (sys_shared s).
Proof.
  unfold restart.
  destruct (startup_event opened _) as [[p' e] io]. reflexivity.
Qed.

Lemma apply_op_shape op s :
  stats_shape (shared_stats (sys_shared s)) ->
  stats_shape (shared_stats (sys_shared (apply_op op s))).
Proof.
  intros Hs. destruct op as [i env|rq| | | |opened t0]; simpl; trivial.
  - destruct (sys_threads s !! i) as [th|]; trivial.
    pose proof (thread_step_shape env (sys_stop s) (sys_shared s) th Hs) as H.
    destruct (thread_step env (sys_stop s) (sys_shared s) th) as [sh' th'].
    exact H.
  - destruct (reload_logos rq (registry (sys_shared s))) as [[r resp] io].
    simpl. exact Hs.
  - now rewrite restart_shared_stats.
Qed.

(** Whatever the program does from its initial state -- loop iterations on
    any input, reloads, reads, shutdown, another start-up -- [GET /stats]
    returns a dictionary with exactly the five keys [fps], [logo1_matches],
    [logo2_matches], [last_update] and [mem_mb], the match counts being
    non-negative integers and the other three floats. *)
Theorem stats_keep_their_shape (ops : list Op) (reg : Registry) (lc : Locals)
    (running : Outcome) (stop : bool) :
  stats_shape
    (get_stats (sys_shared
       (run_ops ops (mkSys (mkShared reg initial_stats None) lc running stop)))).
Proof.
  unfold get_stats, run_ops.
  assert (Hgen : forall s, stats_shape (shared_stats (sys_shared s)) ->
            stats_shape (shared_stats (sys_shared
               (fold_left (fun s op => apply_op op s) ops s)))).
  { induction ops as [|op ops IH]; intros s Hs; simpl; [exact Hs|].
    apply IH. now apply apply_op_shape. }
  apply Hgen. simpl. apply stats_shape_initial.
Qed.



End StatsFacts.

(** ** What a publishing iteration publishes *)

Section PublishFacts.
Context `{cv : OpenCV}.

Lemma match_and_publish_overlay env frame kp d sh sh' matches1 matches2 :
  match_and_publish env frame kp d sh = Ok sh' ->
  knnMatch (desc1 (registry sh)) d 2 = Ok matches1 ->
  knnMatch (desc2 (registry sh)) d 2 = Ok matches2 ->
  exists img,
    last_frame sh' =
      Some (putText
              (putText img ("L1: " +:+ pretty (length (good_matches matches1))) (10, 20))
              ("L2: " +:+ pretty (length (good_matches matches2))) (330, 20)).
Proof.
  unfold match_and_publish. intros Hm H1 H2.
  rewrite H1 in Hm. simpl in Hm. rewrite H2 in Hm. simpl in Hm.
  destruct (drawMatches (logo1_img _) _ _ _ _) as [i1|]; [|discriminate].
  destruct (drawMatches (logo2_img _) _ _ _ _) as [i2|]; [|discriminate].
  simpl in Hm. injection Hm as <-. simpl. eauto.
Qed.

(** An iteration that gets a frame with descriptors and ends normally
    publishes, for each logo, the number of good matches of that logo's
    descriptors against the frame's: the same number in the statistics and
    in the text drawn on the frame, at most the number of descriptors of the
    logo; [last_update] and [mem_mb] are the clock and memory readings of
    that iteration. *)
Theorem published_counts (env : CycleEnv) (sh sh' : Shared) (lc lc' : Locals)
    (ev : list Event) (frame : Image) (kp : KeyPoints) (d : Descs) :
  cap_opened env = true ->
  cap_read env = (true, Some frame) ->
  detectAndCompute (resize frame FRAME_SIZE) = Ok (kp, Some d) ->
  cycle env sh lc = Ok (sh', lc', ev) ->
  exists matches1 matches2 img,
    knnMatch (desc1 (registry sh)) d 2 = Ok matches1 /\
    knnMatch (desc2 (registry sh)) d 2 = Ok matches2 /\
    let n1 := length (good_matches matches1) in
    let n2 := length (good_matches matches2) in
    n1 <= rows (desc1 (registry sh)) /\
    n2 <= rows (desc2 (registry sh)) /\
    get_stats sh' !! "logo1_matches" = Some (PyInt (Z.of_nat n1)) /\
    get_stats sh' !! "logo2_matches" = Some (PyInt (Z.of_nat n2)) /\
    get_stats sh' !! "last_update" = Some (PyFloat (clock_publish env)) /\
    get_stats sh' !! "mem_mb" = Some (PyFloat (mem_stat env)) /\
    last_frame sh' =
      Some (putText (putText img ("L1: " +:+ pretty n1) (10, 20))
                    ("L2: " +:+ pretty n2) (330, 20)).
Proof.
  intros Hopen Hread Hdet Hc.
  unfold cycle in Hc. rewrite Hopen, Hread in Hc. simpl in Hc.
  rewrite Hdet in Hc. simpl in Hc.
  destruct (match_and_publish env _ kp d sh) as [sh1|] eqn:Hm; simpl in Hc;
    [|discriminate].
  pose proof (rate_accounting_keeps env sh1 lc) as (Hf & _ & Hst).
  destruct (rate_accounting env sh1 lc) as [sh2 lc2]. simpl in Hf, Hst.
  injection Hc as <- <- <-.
  destruct (match_and_publish_inv _ _ _ _ _ _ Hm)
    as (m1 & m2 & out & Hk1 & Hk2 & _ & _ & Hstats).
  destruct (match_and_publish_overlay _ _ _ _ _ _ _ _ Hm Hk1 Hk2) as [img Himg].
  exists m1, m2, img.
  split; [exact Hk1|]. split; [exact Hk2|]. simpl.
  destruct (knnMatch_shape _ _ _ _ Hk1) as [Hr1 _].
  destruct (knnMatch_shape _ _ _ _ Hk2) as [Hr2 _].
  pose proof (good_matches_length m1). pose proof (good_matches_length m2).
  split; [lia|]. split; [lia|].
  unfold get_stats. rewrite !Hst by discriminate. rewrite Hstats.
  rewrite Hf, Himg.
  repeat split;
    rewrite ?lookup_insert_eq, ?lookup_insert_ne by discriminate;
    rewrite ?lookup_insert_eq, ?lookup_insert_ne by discriminate;
    rewrite ?lookup_insert_eq, ?lookup_insert_ne by discriminate;
    rewrite ?lookup_insert_eq, ?lookup_insert_ne by discriminate;
    reflexivity.
Qed.

End PublishFacts.

(** ** The generator *)

Section GeneratorFacts.
Context `{cv : OpenCV}.

(** A generator ends at the first iteration that finds the stop flag set:
    what the store holds then and anything after it yields nothing. *)
Theorem generator_ends_at_stop (polls1 polls2 : list (bool * Shared))
    (sh : Shared) :
  mjpeg_generator (polls1 ++ (true, sh) :: polls2) = mjpeg_generator polls1.
Proof.
  induction polls1 as [|[stop sh1] rest IH]; simpl; [reflexivity|].
  destruct stop; [reflexivity|]. now rewrite IH.
Qed.

(** A chunk is the fixed 37-byte header, the JPEG buffer and a final CRLF,
    so it is 39 bytes longer than the buffer and two buffers that give the
    same chunk are the same buffer. *)
Theorem chunk_of_framing (jpg jpg' : list Byte.byte) :
  chunk_of jpg = chunk_header ++ jpg ++ crlf /\
  length (chunk_of jpg) = 39 + length jpg /\
  (chunk_of jpg = chunk_of jpg' -> jpg = jpg').
Proof.
  assert (Hform : forall j, chunk_of j = chunk_header ++ j ++ crlf).
  { intros j. unfold chunk_of, chunk_header.
    now rewrite <- !List.app_assoc. }
  split; [apply Hform|]. split.
  - rewrite Hform, !length_app. simpl. lia.
  - rewrite !Hform. intros H.
    apply app_inv_head in H. now apply app_inv_tail in H.
Qed.

End GeneratorFacts.

(** ** More on the reload handler *)

Section ReloadMoreFacts.
Context `{cv : OpenCV}.

Lemma replace_slot1_twice new r :
  replace_slot1 new (fst (replace_slot1 new r)) = replace_slot1 new r.
Proof.
  unfold replace_slot1. destruct new as [img|]; [|reflexivity].
  simpl. destruct (detectAndCompute img) as [kd|e] eqn:Hd; simpl; rewrite ?Hd;
    reflexivity.
Qed.

Lemma replace_slot2_twice new r :
  replace_slot2 new (fst (replace_slot2 new r)) = replace_slot2 new r.
Proof.
  unfold replace_slot2. destruct new as [img|]; [|reflexivity].
  simpl. destruct (detectAndCompute img) as [kd|e] eqn:Hd; simpl; rewrite ?Hd;
    reflexivity.
Qed.

(** The two slots are replaced independently of each other. *)
Lemma replace_slots_commute new1 new2 r :
  fst (replace_slot1 new1 (fst (replace_slot2 new2 r)))
    = fst (replace_slot2 new2 (fst (replace_slot1 new1 r))) /\
  snd (replace_slot1 new1 (fst (replace_slot2 new2 r))) = snd (replace_slot1 new1 r) /\
  snd (replace_slot2 new2 (fst (replace_slot1 new1 r))) = snd (replace_slot2 new2 r).
Proof.
  unfold replace_slot1, replace_slot2.
  destruct new1 as [i1|], new2 as [i2|]; simpl;
    repeat (match goal with
            | |- context [detectAndCompute ?i] =>
                destruct (detectAndCompute i); simpl
            end); auto.
Qed.

Lemma apply_selected_twice new1 new2 io r :
  apply_selected new1 new2 io (fst (fst (apply_selected new1 new2 io r)))
    = apply_selected new1 new2 io r.
Proof.
  unfold apply_selected.
  assert (Hgo :
    let go r :=
      match replace_slot1 new1 r with
      | (r1, Some e) => (r1, Unhandled e, io)
      | (r1, None) =>
          match replace_slot2 new2 r1 with
          | (r2, Some e) => (r2, Unhandled e, io)
          | (r2, None) => (r2, Status_ok, io)
          end
      end in
    go (fst (fst (go r))) = go r).
  { simpl.
    pose proof (replace_slot1_twice new1 r) as H11.
    destruct (replace_slot1 new1 r) as [r1 [e1|]] eqn:H1; simpl in H11 |- *.
    { now rewrite H11. }
    pose proof (replace_slot2_twice new2 r1) as H22.
    pose proof (replace_slots_commute new1 new2 r1) as (Hc1 & Hc2 & _).
    rewrite H11 in Hc1, Hc2. simpl in Hc1, Hc2.
    assert (Hboth : replace_slot1 new1 (fst (replace_slot2 new2 r1))
                    = (fst (replace_slot2 new2 r1), None)).
    { destruct (replace_slot1 new1 (fst (replace_slot2 new2 r1))) as [r3 e3].
      simpl in Hc1, Hc2. now subst. }
    destruct (replace_slot2 new2 r1) as [r2 [e2|]] eqn:H2;
      simpl in H22, Hboth |- *; now rewrite Hboth, H22. }
  destruct new1 as [i1|], new2 as [i2|]; try exact Hgo. reflexivity.
Qed.

(** Sending the same request twice in a row leaves the registry and gives
    the response that sending it once does, whether the request is
    rejected, accepted or fails in decoding or in feature extraction. *)
Theorem reload_logos_idempotent (rq : ReloadRequest) (r : Registry) :
  reload_logos rq (fst (fst (reload_logos rq r))) = reload_logos rq r.
Proof.
  unfold reload_logos.
  destruct (select_input (logo1_file rq) (logo1_path rq)) as [[new1 io1]|e1];
    [|reflexivity].
  destruct (select_input (logo2_file rq) (logo2_path rq)) as [[new2 io2]|e2];
    [|reflexivity].
  apply apply_selected_twice.
Qed.

(** When both selected inputs are decoded without an exception and feature
    extraction raises on the image of slot 1, the handler fails with that
    exception after line 286: the first entry is left with the new image
    and the old keypoints and descriptors, and the second entry is not
    touched, whatever image was selected for it. *)
Theorem reload_fails_half_way (rq : ReloadRequest) (r : Registry)
    (img : Image) (io1 io2 : list IoEvent) (new_logo2 : option Image) (e : exn) :
  select_input (logo1_file rq) (logo1_path rq) = Ok (Some img, io1) ->
  select_input (logo2_file rq) (logo2_path rq) = Ok (new_logo2, io2) ->
  detectAndCompute img = Raise e ->
  snd (fst (reload_logos rq r)) = Unhandled e /\
  entry1 (fst (fst (reload_logos rq r))) = (img, kp1 r, desc1 r) /\
  entry2 (fst (fst (reload_logos rq r))) = entry2 r.
Proof.
  unfold reload_logos. intros -> -> Hd.
  unfold apply_selected, replace_slot1. simpl. rewrite Hd.
  destruct new_logo2; repeat split.
Qed.

End ReloadMoreFacts.

(** ** More schedules of the handler against the loop *)

Section ScheduleFacts.
Context `{cv : OpenCV}.




(** A reload that falls between the loop's read of [desc1] (line 135) and
    its reads for [drawMatches] (lines 142-145) makes the iteration draw,
    on the new image with the new keypoints, matches it computed from the
    old descriptors -- even with lines 286-287 run as one step. *)
Theorem reload_between_match_and_draw (img : Image)
    (kd : KeyPoints * option Descs) (r : Registry) :
  detectAndCompute img = Ok kd ->
  interleave (reload_stmts (Some img) None) cycle_reads
    [ReadDesc1; ReadDesc2; SetLogo1Img img; SetFeat1; ReadDraw1; ReadDraw2] /\
  seen_entry1
    (c_reads (exec [ReadDesc1; ReadDesc2; SetLogo1Img img; SetFeat1;
                    ReadDraw1; ReadDraw2] r))
    = Some (img, fst kd, desc1 r).
Proof.
  intros Hd. split.
  - unfold reload_stmts, slot_stmts, cycle_reads. simpl.
    do 2 apply interleave_r. do 2 apply interleave_l.
    do 2 apply interleave_r. apply interleave_nil.
  - unfold exec. simpl. unfold handler_stmt, feat_stmt. simpl.
    rewrite Hd. reflexivity.
Qed.

End ScheduleFacts.

(** ** Start-up *)

Section StartupFacts.
Context `{cv : OpenCV}.

(** [load_logos] reads both files before it looks at either result; when
    one of them does not decode it raises [FileNotFoundError] and leaves
    all six globals as they were. *)
Theorem load_logos_missing (path1 path2 : string) (g : Globals) :
  imread path1 = None \/ imread path2 = None ->
  load_logos path1 path2 g
    = (g, Some (FileNotFoundError "No se pudo cargar uno o ambos logos."),
       [ImRead path1; ImRead path2]).
Proof.
  unfold load_logos. intros [H|H]; rewrite H; [reflexivity|].
  destruct (imread path1); reflexivity.
Qed.

Lemma load_logos_ok_inv path1 path2 g g' io :
  load_logos path1 path2 g = (g', None, io) ->
  exists i1 i2 kd1 kd2,
    imread path1 = Some i1 /\ imread path2 = Some i2 /\
    detectAndCompute i1 = Ok kd1 /\ detectAndCompute i2 = Ok kd2 /\
    g' = mkGlobals (Some i1) (Some i2) (Some (fst kd1)) (snd kd1)
                   (Some (fst kd2)) (snd kd2).
Proof.
  unfold load_logos.
  destruct (imread path1) as [i1|]; [|discriminate].
  destruct (imread path2) as [i2|]; [|discriminate].
  destruct (detectAndCompute i1) as [kd1|] eqn:H1; [|discriminate].
  destruct (detectAndCompute i2) as [kd2|] eqn:H2; [|discriminate].
  simpl. intros [= <- _]. exists i1, i2, kd1, kd2. repeat split; assumption.
Qed.

Lemma load_logos_ok path1 path2 g i1 i2 kd1 kd2 :
  imread path1 = Some i1 -> imread path2 = Some i2 ->
  detectAndCompute i1 = Ok kd1 -> detectAndCompute i2 = Ok kd2 ->
  load_logos path1 path2 g
    = (mkGlobals (Some i1) (Some i2) (Some (fst kd1)) (snd kd1)
                 (Some (fst kd2)) (snd kd2), None, [ImRead path1; ImRead path2]).
Proof.
  unfold load_logos. intros -> -> -> ->. reflexivity.
Qed.

(** [startup_event] starts the loop thread if and only if it returns
    without an exception, which it does exactly when both configured logo
    files decode, feature extraction returns on both and the capture is
    open; the stop flag is then clear and the registry holds the two images
    read, each with the features extracted from it. *)
Theorem startup_event_all_or_nothing (opened : bool) :
  let p' := fst (fst (startup_event opened process_at_import)) in
  let e := snd (fst (startup_event opened process_at_import)) in
  (e = None <->
   opened = true /\
   exists i1 i2 kd1 kd2,
     imread LOGO1_PATH = Some i1 /\ imread LOGO2_PATH = Some i2 /\
     detectAndCompute i1 = Ok kd1 /\ detectAndCompute i2 = Ok kd2) /\
  (p_thread p' = true <-> e = None) /\
  (e = None ->
   p_stop p' = false /\ p_cap p' = Some true /\
   exists reg,
     registry_of (p_globals p') = Some reg /\
     entries_consistent reg /\
     imread LOGO1_PATH = Some (logo1_img reg) /\
     imread LOGO2_PATH = Some (logo2_img reg)).
Proof.
  unfold startup_event. simpl.
  destruct (load_logos LOGO1_PATH LOGO2_PATH globals_at_import)
    as [[g [e|]] io] eqn:Hl; simpl.
  - split; [|split; [split; discriminate | discriminate]].
    split; [discriminate|].
    intros (_ & i1 & i2 & kd1 & kd2 & H1 & H2 & H3 & H4).
    rewrite (load_logos_ok _ _ _ _ _ _ _ H1 H2 H3 H4) in Hl. discriminate.
  - apply load_logos_ok_inv in Hl as (i1 & i2 & kd1 & kd2 & H1 & H2 & H3 & H4 & ->).
    destruct opened; simpl.
    + split; [split; [intros _; split; [reflexivity | eauto 10] | reflexivity]|].
      split; [tauto|].
      intros _. split; [reflexivity|]. split; [reflexivity|].
      eexists. split; [reflexivity|].
      unfold entries_consistent. simpl.
      rewrite H3, H4. destruct kd1, kd2. auto.
    + split; [split; [discriminate | intros [? _]; discriminate]|].
      split; [split; discriminate | discriminate].
Qed.

(** A reload that does not fail in feature extraction keeps the registry
    consistent: each entry still pairs its image with the features of that
    image, whether the request was applied or rejected. *)
Theorem reload_keeps_entries_consistent (rq : ReloadRequest) (r : Registry) :
  entries_consistent r ->
  (forall e, snd (fst (reload_logos rq r)) <> Unhandled e) ->
  entries_consistent (fst (fst (reload_logos rq r))).
Proof.
  unfold reload_logos, entries_consistent.
  destruct (select_input (logo1_file rq) (logo1_path rq)) as [[new1 io1]|s1];
    [|intros Hc Hresp; exact Hc].
  destruct (select_input (logo2_file rq) (logo2_path rq)) as [[new2 io2]|s2];
    [|intros Hc Hresp; exact Hc].
  intros [Hc1 Hc2] Hresp.
  unfold apply_selected, replace_slot1, replace_slot2 in *.
  destruct new1 as [i1|], new2 as [i2|]; simpl in *.
  - destruct (detectAndCompute i1) as [[k1 d1]|e1] eqn:H1; simpl in *;
      [|now destruct (Hresp e1)].
    destruct (detectAndCompute i2) as [[k2 d2]|e2] eqn:H2; simpl in *;
      [|now destruct (Hresp e2)].
    auto.
  - destruct (detectAndCompute i1) as [[k1 d1]|e1] eqn:H1; simpl in *;
      [|now destruct (Hresp e1)].
    auto.
  - destruct (detectAndCompute i2) as [[k2 d2]|e2] eqn:H2; simpl in *;
      [|now destruct (Hresp e2)].
    auto.
  - auto.
Qed.

End StartupFacts.

(** ** The further properties on concrete runs *)

Lemma published_counts_witness :
  exists matches1 matches2 img,
    knnMatch (desc1 Toy.reg0) [[1%float]; [10%float]] 2 = Ok matches1 /\
    knnMatch (desc2 Toy.reg0) [[1%float]; [10%float]] 2 = Ok matches2 /\
    let n1 := length (good_matches matches1) in
    let n2 := length (good_matches matches2) in
    n1 <= rows (desc1 Toy.reg0) /\
    n2 <= rows (desc2 Toy.reg0) /\
    get_stats (fst (fst ToyRuns.published)) !! "logo1_matches" = Some (PyInt (Z.of_nat n1)) /\
    get_stats (fst (fst ToyRuns.published)) !! "logo2_matches" = Some (PyInt (Z.of_nat n2)) /\
    get_stats (fst (fst ToyRuns.published)) !! "last_update" = Some (PyFloat 100.5%float) /\
    get_stats (fst (fst ToyRuns.published)) !! "mem_mb" = Some (PyFloat 42%float) /\
    last_frame (fst (fst ToyRuns.published)) =
      Some (putText (putText img ("L1: " +:+ pretty n1) (10, 20))
                    ("L2: " +:+ pretty n2) (330, 20)).
Proof.
  apply (published_counts ToyRuns.publishing_env Toy.shared0
           (fst (fst ToyRuns.published)) Toy.locals0 (snd (fst ToyRuns.published))
           (snd ToyRuns.published) (Toy.Raw 2) 2 [[1%float]; [10%float]]).
  - reflexivity.
  - reflexivity.
  - reflexivity.
  - reflexivity.
Defined.


(** With a start-up among the operations the same program publishes
    again: on [Studio] the start-up succeeds, clears the stop flag and
    starts a second loop thread, whose first iteration puts a new frame. *)
Example startup_publishes_again :
  let s' := @run_ops Studio.studio_cv
              [OpStartup true 200%float;
               OpCycle 1 (@mkCycleEnv Studio.studio_cv CapOpen (true, Some (Toy.Raw 2))
                            200.5%float 42%float 200.5%float)]
              Studio.stopped_sys in
  sys_stop s' = false /\
  length (sys_threads s') = 2 /\
  last_frame (sys_shared s') <> last_frame (sys_shared Studio.stopped_sys).
Proof.
  repeat split. simpl. discriminate.
Qed.

Lemma reload_fails_half_way_witness :
  snd (fst (@reload_logos Studio.studio_cv Studio.failing_request Studio.reg0))
    = Unhandled (cv2_error "detectAndCompute") /\
  entry1 (fst (fst (@reload_logos Studio.studio_cv Studio.failing_request Studio.reg0)))
    = (Toy.Raw 9, 3, Some [[0%float]; [0%float]; [0%float]]) /\
  entry2 (fst (fst (@reload_logos Studio.studio_cv Studio.failing_request Studio.reg0)))
    = entry2 Studio.reg0.
Proof.
  apply (@reload_fails_half_way Studio.studio_cv Studio.failing_request
           Studio.reg0 (Toy.Raw 9) [] [] (Some (Toy.Raw 2))
           (cv2_error "detectAndCompute")).
  - reflexivity.
  - reflexivity.
  - reflexivity.
Defined.

Lemma reload_between_match_and_draw_witness :
  interleave (@reload_stmts Toy.toy_cv (Some (Toy.Raw 2)) None) cycle_reads
    [ReadDesc1; ReadDesc2; SetLogo1Img (Toy.Raw 2); SetFeat1; ReadDraw1; ReadDraw2] /\
  seen_entry1
    (c_reads (exec [ReadDesc1; ReadDesc2; SetLogo1Img (Toy.Raw 2); SetFeat1;
                    ReadDraw1; ReadDraw2] Toy.reg0))
    = Some (Toy.Raw 2, 2, Some [[0%float]; [0%float]; [0%float]]).
Proof.
  apply (@reload_between_match_and_draw Toy.toy_cv (Toy.Raw 2)
           (2, Some [[1%float]; [10%float]]) Toy.reg0).
  reflexivity.
Defined.

Lemma load_logos_missing_witness :
  @load_logos Toy.toy_cv "logo1.jpg" "missing.jpg" globals_at_import
    = (globals_at_import,
       Some (FileNotFoundError "No se pudo cargar uno o ambos logos."),
       [ImRead "logo1.jpg"; ImRead "missing.jpg"]).
Proof.
  apply (@load_logos_missing Toy.toy_cv "logo1.jpg" "missing.jpg" globals_at_import).
  right. reflexivity.
Defined.

Lemma reload_keeps_entries_consistent_witness :
  entries_consistent
    (fst (fst (reload_logos
                 (mkReloadRequest (Some [Byte.x02]) (Some [Byte.x07; Byte.x07]) None None)
                 Toy.reg0))).
Proof.
  apply (reload_keeps_entries_consistent
           (mkReloadRequest (Some [Byte.x02]) (Some [Byte.x07; Byte.x07]) None None)
           Toy.reg0).
  - split; reflexivity.
  - intros e. vm_compute. discriminate.
Defined.

(** On [Studio], with the capture open, the start-up succeeds; with the
    capture closed it raises after the logos are loaded and starts no
    thread; on [Toy] the configured logo files do not exist. *)
Example startup_runs :
  let started := @startup_event Studio.studio_cv true process_at_import in
  let refused := @startup_event Studio.studio_cv false process_at_import in
  snd (fst started) = None /\
  p_thread (fst (fst started)) = true /\
  registry_of (p_globals (fst (fst started))) = Some Studio.reg0 /\
  snd (fst refused) = Some (RuntimeError "No se pudo abrir el stream del celular.") /\
  p_thread (fst (fst refused)) = false /\
  registry_of (p_globals (fst (fst refused))) = Some Studio.reg0 /\
  @startup_event Toy.toy_cv true process_at_import
    = (process_at_import,
       Some (FileNotFoundError "No se pudo cargar uno o ambos logos."),
       [ImRead LOGO1_PATH; ImRead LOGO2_PATH]).
Proof. repeat split; vm_compute; reflexivity. Qed.

(** ** The standalone script *)

Section ScriptFacts.
Context `{cv : OpenCV} {gui : HighGui cv}.

Lemma land_255 k : Z.land k 255 = (k mod 256)%Z.
Proof. change 255%Z with (Z.ones 8). now rewrite Z.land_ones by lia. Qed.

Lemma show_and_count_ctl env frame st :
  snd (show_and_count env frame st)
    = if (s_key env mod 256 =? 27)%Z then Break else Next.
Proof.
  unfold show_and_count.
  destruct (1 <=? s_now env - s_last_fps_time st)%float; simpl;
    now rewrite land_255.
Qed.

(** On a frame whose number is not a multiple of 5 the script leaves the
    loop exactly when the low byte of the key code is 27: ESC with any
    modifier bits above it, and never the -1 of "no key". *)
Theorem esc_low_byte_breaks (reg : Registry) (env : ScriptEnv)
    (st : ScriptLocals) (frame : Image) :
  s_read env = (true, Some frame) ->
  ((frame_count st + 1) mod 5 <> 0)%Z ->
  (snd (script_iteration reg env st) = Break <-> (s_key env mod 256 = 27)%Z) /\
  (snd (script_iteration reg env st) = Next <-> (s_key env mod 256 <> 27)%Z).
Proof.
  intros Hread Hmod. unfold script_iteration. rewrite Hread. simpl.
  apply Z.eqb_neq in Hmod. rewrite Hmod.
  rewrite show_and_count_ctl.
  destruct (s_key env mod 256 =? 27)%Z eqn:Hk.
  - apply Z.eqb_eq in Hk. intuition congruence.
  - apply Z.eqb_neq in Hk. intuition congruence.
Qed.

(** On such a frame the script runs neither the detector nor the matcher:
    what it does is the same for every registry, and no exception can end
    it. *)
Theorem off_frames_skip_detection (reg reg' : Registry) (env : ScriptEnv)
    (st : ScriptLocals) :
  ((frame_count st + 1) mod 5 <> 0)%Z ->
  script_iteration reg env st = script_iteration reg' env st /\
  (forall e, snd (script_iteration reg env st) <> Uncaught e).
Proof.
  intros Hmod. apply Z.eqb_neq in Hmod. unfold script_iteration.
  destruct (s_read env) as [[|] [frame|]]; simpl; try (split; [reflexivity | discriminate]).
  rewrite Hmod. split; [reflexivity|].
  intros e. rewrite show_and_count_ctl.
  destruct (s_key env mod 256 =? 27)%Z; discriminate.
Qed.

(** A fifth frame without features is dropped by the [continue] of
    line 47: it is not shown, not counted for the FPS line, and the key is
    not looked at, so ESC does not end the script on it. *)
Theorem blank_fifth_frame_is_dropped (reg : Registry) (env : ScriptEnv)
    (st : ScriptLocals) (frame : Image) (kp_frame : KeyPoints) :
  s_read env = (true, Some frame) ->
  ((frame_count st + 1) mod 5 = 0)%Z ->
  detectAndCompute (resize frame (320, 240)) = Ok (kp_frame, None) ->
  script_iteration reg env st
    = (mkScriptLocals (frame_count st + 1) (s_fps_counter st) (s_last_fps_time st),
       [], Next).
Proof.
  intros Hread Hmod Hdet. unfold script_iteration. rewrite Hread. simpl.
  apply Z.eqb_eq in Hmod. rewrite Hmod.
  unfold detect_part. now rewrite Hdet.
Qed.

(** The script and the server count alike: on a frame on which an
    iteration of the server publishes its match counts, the script, when
    that frame is a fifth one and its registry is the server's, prints a
    line with the same two counts. *)
Theorem script_prints_published_counts (env : CycleEnv) (senv : ScriptEnv)
    (sh sh' : Shared) (lc lc' : Locals) (ev : list Event) (st : ScriptLocals)
    (frame : Image) (kp : KeyPoints) (d : Descs) :
  cap_opened env = true ->
  cap_read env = (true, Some frame) ->
  s_read senv = (true, Some frame) ->
  detectAndCompute (resize frame FRAME_SIZE) = Ok (kp, Some d) ->
  cycle env sh lc = Ok (sh', lc', ev) ->
  ((frame_count st + 1) mod 5 = 0)%Z ->
  exists n1 n2,
    get_stats sh' !! "logo1_matches" = Some (PyInt (Z.of_nat n1)) /\
    get_stats sh' !! "logo2_matches" = Some (PyInt (Z.of_nat n2)) /\
    In (Print ("Logo1: " +:+ pretty n1 +:+ " matches | Logo2: " +:+ pretty n2
               +:+ " matches"))
       (snd (fst (script_iteration (registry sh) senv st))).
Proof.
  intros Hopen Hread Hsread Hdet Hc Hmod.
  unfold cycle in Hc. rewrite Hopen, Hread in Hc. simpl in Hc.
  rewrite Hdet in Hc. simpl in Hc.
  destruct (match_and_publish env _ kp d sh) as [sh1|] eqn:Hm; simpl in Hc;
    [|discriminate].
  pose proof (rate_accounting_keeps env sh1 lc) as (_ & _ & Hst).
  destruct (rate_accounting env sh1 lc) as [sh2 lc2]. simpl in Hst.
  injection Hc as <- <- <-.
  destruct (match_and_publish_inv _ _ _ _ _ _ Hm)
    as (m1 & m2 & out & Hk1 & Hk2 & _ & _ & Hstats).
  exists (length (good_matches m1)), (length (good_matches m2)).
  unfold get_stats. rewrite !Hst by discriminate. rewrite Hstats.
  split; [|split].
  - rewrite lookup_insert_ne by discriminate.
    rewrite lookup_insert_ne by discriminate.
    rewrite lookup_insert_ne by discriminate.
    now rewrite lookup_insert_eq.
  - rewrite lookup_insert_ne by discriminate.
    rewrite lookup_insert_ne by discriminate.
    now rewrite lookup_insert_eq.
  - unfold script_iteration. rewrite Hsread. simpl.
    apply Z.eqb_eq in Hmod. rewrite Hmod.
    unfold detect_part.
    change (resize frame (320, 240)) with (resize frame FRAME_SIZE).
    rewrite Hdet, Hk1, Hk2.
    destruct (show_if_many "Matches1" _ _ _ _ _) as [ev1 [e1|]]; simpl;
      [now left|].
    destruct (show_if_many "Matches2" _ _ _ _ _) as [ev2 [e2|]]; simpl;
      [now left|].
    destruct (show_and_count senv _ _) as [[st' ev'] ctl]. simpl. now left.
Qed.

Lemma show_if_many_events winname logo kp frame kp_frame good :
  Forall (fun e => e <> CapRelease /\ e <> DestroyAllWindows)
         (fst (show_if_many winname logo kp frame kp_frame good)).
Proof.
  unfold show_if_many. destruct (50 <? length good); [|constructor].
  destruct (drawMatches logo kp frame kp_frame good); simpl; repeat constructor;
    discriminate.
Qed.

(** An iteration only prints and shows windows. *)
Lemma script_iteration_events reg env st :
  Forall (fun e => e <> CapRelease /\ e <> DestroyAllWindows)
         (snd (fst (script_iteration reg env st))).
Proof.
  assert (Hshow : forall frame st0,
            Forall (fun e => e <> CapRelease /\ e <> DestroyAllWindows)
                   (snd (fst (show_and_count env frame st0)))).
  { intros frame st0. unfold show_and_count.
    destruct (1 <=? s_now env - s_last_fps_time st0)%float; simpl;
      repeat constructor; discriminate. }
  assert (Hdet : forall frame,
            Forall (fun e => e <> CapRelease /\ e <> DestroyAllWindows)
                   (fst (detect_part reg frame))).
  { intros frame. unfold detect_part.
    destruct (detectAndCompute frame) as [[kpf [d|]]|]; simpl; try constructor.
    destruct (knnMatch (desc1 reg) d 2) as [m1|]; simpl; try constructor.
    destruct (knnMatch (desc2 reg) d 2) as [m2|]; simpl; try constructor.
    pose proof (show_if_many_events "Matches1" (logo1_img reg) (kp1 reg) frame kpf
                  (good_matches m1)) as H1.
    pose proof (show_if_many_events "Matches2" (logo2_img reg) (kp2 reg) frame kpf
                  (good_matches m2)) as H2.
    destruct (show_if_many "Matches1" _ _ _ _ _) as [ev1 [e1|]]; simpl in *.
    { constructor; [split; discriminate | exact H1]. }
    destruct (show_if_many "Matches2" _ _ _ _ _) as [ev2 [e2|]]; simpl in *.
    { constructor; [split; discriminate|]. apply Forall_app. now split. }
    constructor; [split; discriminate|].
    apply Forall_app. split; [exact H1|]. apply Forall_app. split; [exact H2|].
    repeat constructor; discriminate. }
  unfold script_iteration.
  destruct (s_read env) as [[|] [frame|]]; simpl;
    try (repeat constructor; discriminate).
  destruct (_ =? 0)%Z.
  - specialize (Hdet (resize frame (320, 240))).
    destruct (detect_part reg (resize frame (320, 240))) as [evd [| |e]];
      simpl in *; try exact Hdet.
    specialize (Hshow (resize frame (320, 240))
                  (mkScriptLocals (frame_count st + 1) (s_fps_counter st)
                                  (s_last_fps_time st))).
    destruct (show_and_count env _ _) as [[st' ev'] ctl]. simpl in *.
    apply Forall_app. now split.
  - apply Hshow.
Qed.

(** The script releases the capture and closes its windows, once and as
    its last two actions, exactly when it leaves the loop by a [break]; a
    run that an exception ended does neither. *)
Theorem script_cleans_up_on_break (reg : Registry) (envs : list ScriptEnv)
    (st : ScriptLocals) :
  let evs := fst (script_loop reg envs st) in
  let o := snd (script_loop reg envs st) in
  (In CapRelease evs <-> o = Finished) /\
  (In DestroyAllWindows evs <-> o = Finished) /\
  (o = Finished ->
   exists before, evs = before ++ [CapRelease; DestroyAllWindows] /\
                  ~ In CapRelease before /\ ~ In DestroyAllWindows before).
Proof.
  revert st. induction envs as [|env rest IH]; intros st; simpl.
  - repeat split; try tauto; discriminate.
  - pose proof (script_iteration_events reg env st) as Hev.
    destruct (script_iteration reg env st) as [[st' ev] [| |e]]; simpl in Hev.
    + specialize (IH st').
      destruct (script_loop reg rest st') as [evs o]. simpl in *.
      destruct IH as (I1 & I2 & I3).
      rewrite List.Forall_forall in Hev.
      repeat split.
      * intros Hin. apply in_app_or in Hin as [Hin|Hin]; [|tauto].
        now destruct (Hev _ Hin).
      * intros Ho. apply in_or_app. tauto.
      * intros Hin. apply in_app_or in Hin as [Hin|Hin]; [|tauto].
        now destruct (Hev _ Hin).
      * intros Ho. apply in_or_app. tauto.
      * intros Ho. destruct (I3 Ho) as (before & -> & Hb1 & Hb2).
        exists (ev ++ before). rewrite <- List.app_assoc.
        split; [reflexivity|].
        split; intros Hin; apply in_app_or in Hin as [Hin|Hin]; try tauto;
          now destruct (Hev _ Hin).
    + simpl. rewrite List.Forall_forall in Hev.
      repeat split; trivial.
      * intros _. apply in_or_app. right. simpl. auto.
      * intros _. apply in_or_app. right. simpl. auto.
      * intros _. exists ev. split; [reflexivity|].
        split; intros Hin; now destruct (Hev _ Hin).
    + simpl. rewrite List.Forall_forall in Hev.
      repeat split; try discriminate; intros Hin; now destruct (Hev _ Hin).
Qed.

(** The script gives up on the first failed read, where the server backs
    off and retries: whatever the camera would deliver afterwards is never
    read. *)
Theorem script_ends_on_failed_read (reg : Registry)
    (envs1 envs2 : list ScriptEnv) (env : ScriptEnv) (st : ScriptLocals) :
  (forall frame, s_read env <> (true, Some frame)) ->
  script_loop reg (envs1 ++ env :: envs2) st = script_loop reg (envs1 ++ [env]) st /\
  snd (script_loop reg (envs1 ++ env :: envs2) st) <> StillRunning.
Proof.
  intros Hfail.
  assert (Hit : forall st0, script_iteration reg env st0
                            = (st0, [Print "⚠️ Frame vacío."], Break)).
  { intros st0. unfold script_iteration.
    destruct (s_read env) as [[|] [frame|]]; try reflexivity.
    now destruct (Hfail frame). }
  revert st. induction envs1 as [|e1 rest IH]; intros st; simpl.
  - rewrite Hit. simpl. split; [reflexivity | discriminate].
  - destruct (script_iteration reg e1 st) as [[st' ev] [| |e]]; simpl.
    + destruct (IH st') as [IH1 IH2]. rewrite IH1.
      split; [reflexivity|].
      rewrite IH1 in IH2.
      destruct (script_loop reg (rest ++ [env]) st'). exact IH2.
    + split; [reflexivity | discriminate].
    + split; [reflexivity | discriminate].
Qed.

(** With the capture open, the script works on the registry the server's
    start-up builds from the same two files. *)
Theorem script_uses_startup_registry (t0 : float) (envs : list ScriptEnv)
    (p : Process) (io : list IoEvent) :
  startup_event true process_at_import = (p, None, io) ->
  exists reg,
    registry_of (p_globals p) = Some reg /\
    script_main true t0 envs = script_loop reg envs (mkScriptLocals 0 0 t0).
Proof.
  unfold startup_event. simpl.
  destruct (load_logos LOGO1_PATH LOGO2_PATH globals_at_import)
    as [[g [e|]] io'] eqn:Hl; simpl; [discriminate|].
  intros [= <- <-].
  apply load_logos_ok_inv in Hl as (i1 & i2 & kd1 & kd2 & H1 & H2 & H3 & H4 & ->).
  eexists. split; [reflexivity|].
  unfold script_main. simpl.
  change "Coca_Cola_Logo.jpg" with LOGO1_PATH.
  change "logo2.jpg" with LOGO2_PATH.
  now rewrite H1, H2, H3, H4.
Qed.

End ScriptFacts.

(** ** The script on concrete runs *)

Lemma esc_low_byte_breaks_witness :
  (snd (@script_iteration _ ScriptRuns.toy_gui Toy.reg0
          (ScriptRuns.read_of 2 283) ScriptRuns.at_frame5) = Break
   <-> (283 mod 256 = 27)%Z) /\
  (snd (@script_iteration _ ScriptRuns.toy_gui Toy.reg0
          (ScriptRuns.read_of 2 283) ScriptRuns.at_frame5) = Next
   <-> (283 mod 256 <> 27)%Z).
Proof.
  apply (@esc_low_byte_breaks _ ScriptRuns.toy_gui Toy.reg0
           (ScriptRuns.read_of 2 283) ScriptRuns.at_frame5 (Toy.Raw 2)).
  - reflexivity.
  - vm_compute. discriminate.
Defined.

Lemma off_frames_skip_detection_witness :
  @script_iteration _ ScriptRuns.toy_gui Toy.reg0
     (ScriptRuns.read_of (-1) 0) ScriptRuns.at_frame5
  = @script_iteration _ ScriptRuns.toy_gui ScriptRuns.other_reg
     (ScriptRuns.read_of (-1) 0) ScriptRuns.at_frame5 /\
  (forall e, snd (@script_iteration _ ScriptRuns.toy_gui Toy.reg0
                    (ScriptRuns.read_of (-1) 0) ScriptRuns.at_frame5)
             <> Uncaught e).
Proof.
  apply (@off_frames_skip_detection _ ScriptRuns.toy_gui).
  vm_compute. discriminate.
Defined.

Lemma blank_fifth_frame_is_dropped_witness :
  @script_iteration _ ScriptRuns.toy_gui Toy.reg0
     (ScriptRuns.read_of 0 27) ScriptRuns.at_frame4
  = (mkScriptLocals 5 4 100%float, [], Next).
Proof.
  apply (@blank_fifth_frame_is_dropped _ ScriptRuns.toy_gui Toy.reg0
           (ScriptRuns.read_of 0 27) ScriptRuns.at_frame4 (Toy.Raw 0) 0).
  - reflexivity.
  - reflexivity.
  - reflexivity.
Defined.

Lemma script_prints_published_counts_witness :
  exists n1 n2,
    get_stats (fst (fst ToyRuns.published)) !! "logo1_matches" = Some (PyInt (Z.of_nat n1)) /\
    get_stats (fst (fst ToyRuns.published)) !! "logo2_matches" = Some (PyInt (Z.of_nat n2)) /\
    In (Print ("Logo1: " +:+ pretty n1 +:+ " matches | Logo2: " +:+ pretty n2
               +:+ " matches"))
       (snd (fst (@script_iteration _ ScriptRuns.toy_gui (registry Toy.shared0)
                    (ScriptRuns.read_of 2 (-1)) ScriptRuns.at_frame4))).
Proof.
  apply (@script_prints_published_counts _ ScriptRuns.toy_gui
           ToyRuns.publishing_env (ScriptRuns.read_of 2 (-1)) Toy.shared0
           (fst (fst ToyRuns.published)) Toy.locals0 (snd (fst ToyRuns.published))
           (snd ToyRuns.published) ScriptRuns.at_frame4 (Toy.Raw 2) 2
           [[1%float]; [10%float]]).
  - reflexivity.
  - reflexivity.
  - reflexivity.
  - reflexivity.
  - reflexivity.
  - reflexivity.
Defined.

Lemma script_ends_on_failed_read_witness :
  @script_loop _ ScriptRuns.toy_gui Toy.reg0
     ([ScriptRuns.read_of 2 (-1)] ++ ScriptRuns.failed_read :: [ScriptRuns.read_of 2 (-1)])
     ScriptRuns.at_frame4
  = @script_loop _ ScriptRuns.toy_gui Toy.reg0
     ([ScriptRuns.read_of 2 (-1)] ++ [ScriptRuns.failed_read]) ScriptRuns.at_frame4 /\
  snd (@script_loop _ ScriptRuns.toy_gui Toy.reg0
         ([ScriptRuns.read_of 2 (-1)] ++ ScriptRuns.failed_read :: [ScriptRuns.read_of 2 (-1)])
         ScriptRuns.at_frame4) <> StillRunning.
Proof.
  apply (@script_ends_on_failed_read _ ScriptRuns.toy_gui Toy.reg0
           [ScriptRuns.read_of 2 (-1)] [ScriptRuns.read_of 2 (-1)]
           ScriptRuns.failed_read ScriptRuns.at_frame4).
  intros frame. vm_compute. discriminate.
Defined.

Lemma script_uses_startup_registry_witness :
  exists reg,
    registry_of
      (p_globals (fst (fst (@startup_event Studio.studio_cv true process_at_import))))
      = Some reg /\
    @script_main _ ScriptRuns.studio_gui true 100%float []
      = @script_loop _ ScriptRuns.studio_gui reg [] (mkScriptLocals 0 0 100%float).
Proof.
  apply (@script_uses_startup_registry _ ScriptRuns.studio_gui 100%float []
           (fst (fst (@startup_event Studio.studio_cv true process_at_import)))
           (snd (@startup_event Studio.studio_cv true process_at_import))).
  reflexivity.
Defined.

(** A run of the script on [Toy]: a fifth frame with features, then a
    failed read. *)
Example script_run :
  @script_loop _ ScriptRuns.toy_gui Toy.reg0
     [ScriptRuns.read_of 2 (-1); ScriptRuns.failed_read] ScriptRuns.at_frame4
  = ([Print "Logo1: 3 matches | Logo2: 1 matches";
      ImShow "KeyPoints" (Toy.Text (Toy.Resized (Toy.Raw 2) 320 240) "keypoints" 2 0);
      ImShow "Video" (Toy.Resized (Toy.Raw 2) 320 240);
      Print "⚠️ Frame vacío."; CapRelease; DestroyAllWindows],
     Finished).
Proof. reflexivity. Qed.

(** ** The files the reload handler reads *)

Section ReloadIoFacts.
Context `{cv : OpenCV}.

Lemma select_input_reads file path p :
  In (ImRead p) (reads_of (select_input file path)) <->
  file = None /\ path = Some p /\ p <> "".
Proof.
  unfold select_input.
  destruct file as [data|]; simpl.
  { destruct (imdecode data); simpl; split; try tauto; intros [? _]; discriminate. }
  destruct path as [q|]; simpl; [|split; [tauto | intros (_ & ? & _); discriminate]].
  destruct (String.eqb q "") eqn:Hq; simpl.
  - apply String.eqb_eq in Hq. subst q.
    split; [tauto|]. intros (_ & [= <-] & Hne). now destruct Hne.
  - apply String.eqb_neq in Hq.
    split.
    + intros [[= <-]|[]]. auto.
    + intros (_ & [= <-] & _). now left.
Qed.

Lemma select_input_raises file path e :
  select_input file path = Raise e <->
  exists data, file = Some data /\ imdecode data = Raise e.
Proof.
  unfold select_input.
  destruct file as [data|]; simpl.
  - destruct (imdecode data) as [img|e'] eqn:Hd; simpl; split.
    + discriminate.
    + intros (d & [= <-] & H). congruence.
    + intros [= <-]. eauto.
    + intros (d & [= <-] & H). congruence.
  - split; [|intros (? & ? & _); discriminate].
    destruct path as [q|]; [destruct (String.eqb q "")|]; discriminate.
Qed.

Lemma reload_logos_io rq r :
  snd (reload_logos rq r)
    = match select_input (logo1_file rq) (logo1_path rq) with
      | Ok (_, io1) => io1 ++ reads_of (select_input (logo2_file rq) (logo2_path rq))
      | Raise _ => []
      end.
Proof.
  unfold reload_logos.
  destruct (select_input (logo1_file rq) (logo1_path rq)) as [[new1 io1]|e1];
    [|reflexivity].
  destruct (select_input (logo2_file rq) (logo2_path rq)) as [[new2 io2]|e2]; simpl.
  - apply apply_selected_io.
  - now rewrite app_nil_r.
Qed.

(** The handler reads a file exactly for the slots that come without an
    upload and with a non-empty path -- for slot 2 only if the upload of
    slot 1, when there is one, did not make the decoder raise -- and it
    reads them before it decides anything: also when the request ends up
    rejected or fails later. An empty path counts as no path. *)
Theorem reload_reads_named_paths_only (rq : ReloadRequest) (r : Registry)
    (p : string) :
  In (ImRead p) (snd (reload_logos rq r)) <->
  p <> "" /\
  ((logo1_file rq = None /\ logo1_path rq = Some p) \/
   (logo2_file rq = None /\ logo2_path rq = Some p /\
    forall data e, logo1_file rq = Some data -> imdecode data <> Raise e)).
Proof.
  rewrite reload_logos_io.
  pose proof (select_input_reads (logo1_file rq) (logo1_path rq) p) as H1.
  pose proof (select_input_reads (logo2_file rq) (logo2_path rq) p) as H2.
  destruct (select_input (logo1_file rq) (logo1_path rq)) as [[new1 io1]|e1] eqn:Hs1.
  - assert (Hno : forall data e, logo1_file rq = Some data -> imdecode data <> Raise e).
    { intros data e Hf Hd.
      assert (select_input (logo1_file rq) (logo1_path rq) = Raise e) as Hr
        by (apply select_input_raises; eauto).
      congruence. }
    simpl in H1. rewrite in_app_iff, H1, H2. split.
    + intros [(? & ? & ?)|(? & ? & ?)]; split; auto.
    + intros (Hne & [(? & ?)|(? & ? & _)]); auto.
  - apply select_input_raises in Hs1 as (data & Hf & Hd).
    simpl. split; [tauto|].
    intros (_ & [(Hnone & _)|(_ & _ & Hno)]); [congruence|].
    exact (Hno data e1 Hf Hd).
Qed.

End ReloadIoFacts.
